(** * BOF: byte conversion primitives and the OPC UA block builder

    A shallow embedding of [bof/byte.py] and of [bof/opcua/opcuaframe.py].

    Python values are modelled as follows:
    - [bytes] objects are lists of [Byte.byte];
    - Python integers are [Z] (unbounded, [&], [>>] and [<<] are
      [Z.land], [Z.shiftr] and [Z.shiftl]);
    - a call that may raise returns a [result], the exception being the
      [Raise] case;
    - the module global [_BYTEORDER] is an explicit argument [dflt] of every
      function that reads it.

    [bof/frame.py], [bof/spec.py] and [opcua.json] are not among the
    sources: what the block builder uses of them is modelled from the
    specification, each such definition says so, and the content of
    [opcua.json] is a value of type [OpcuaSpec]. *)

From Stdlib Require Import ZArith NArith List String Ascii Lia Bool DecimalString.
From Stdlib.Strings Require Import Byte.
Import ListNotations.

Set Warnings "-register-all".

Open Scope string_scope.
Open Scope list_scope.
Open Scope Z_scope.

(** ** Exceptions and results *)

Inductive error : Type :=
| BOFProgrammingError (msg : string)
| OverflowError
| AssertionError
| ValueError
| NameError (name : string)
| KeyError (key : string)
| RecursionError.

Inductive result (A : Type) : Type :=
| Ok (a : A)
| Raise (e : error).

Arguments Ok {A} a.
Arguments Raise {A} e.

Definition bind {A B : Type} (r : result A) (k : A -> result B) : result B :=
  match r with
  | Ok a => k a
  | Raise e => Raise e
  end.

Notation "'do' x <- r ; k" := (bind r (fun x => k))
  (at level 10, x name, r at level 100, k at level 200).

(** String equality, the [==] of Python on [str]. *)
Infix "=s" := String.eqb (at level 70, no associativity).

Definition bytes : Type := list byte.

(** ** Bytes and integers *)

Definition byte_of_Z (z : Z) : byte :=
  match Byte.of_N (Z.to_N (z mod 256)) with
  | Some b => b
  | None => x00
  end.

Definition Z_of_byte (b : byte) : Z := Z.of_N (Byte.to_N b).

(** Python slices [a[start:]] and [a[:stop]]; a negative index counts from
    the end and everything is clamped to the bounds of the list. *)

Definition slice_from {A : Type} (start : Z) (a : list A) : list A :=
  if start <? 0
  then skipn (Z.to_nat (Z.of_nat (List.length a) + start)) a
  else skipn (Z.to_nat start) a.

Definition slice_to {A : Type} (stop : Z) (a : list A) : list A :=
  if stop <? 0
  then firstn (Z.to_nat (Z.of_nat (List.length a) + stop)) a
  else firstn (Z.to_nat stop) a.

Module ByteCodec.

(** [__DEFAULT_BYTEORDER] *)
Definition DEFAULT_BYTEORDER : string := "big".

(** [byteorder not in ["big", "little"]] *)
Definition valid_order (byteorder : string) : bool :=
  (byteorder =s "big") || (byteorder =s "little").

Definition order_error {A : Type} : result A :=
  Raise (BOFProgrammingError "Byte order is either 'big' or 'little'").

(** [set_byteorder]: the new value of the global [_BYTEORDER]. *)
Definition set_byteorder (byteorder : string) : result string :=
  if negb (valid_order byteorder) then order_error else Ok byteorder.

(** [byteorder if byteorder else _BYTEORDER]: [None] and the empty string
    are the falsy values of the optional argument. *)
Definition order_or_default (byteorder : option string) (dflt : string) : string :=
  match byteorder with
  | None => dflt
  | Some s => if s =s EmptyString then dflt else s
  end.

(** [int.bit_length] *)
Definition bit_length (n : Z) : Z :=
  if n =? 0 then 0 else Z.log2 (Z.abs n) + 1.

(** [get_size], at its two input kinds. *)
Definition get_size_bytes (array : bytes) : Z := Z.of_nat (List.length array).
Definition get_size_int (array : Z) : Z := (bit_length array + 7) / 8.

(** [resize] *)
Definition resize (dflt : string) (array : bytes) (size : Z)
  (byteorder : option string) : bytes :=
  let byteorder := order_or_default byteorder dflt in
  let len := Z.of_nat (List.length array) in
  if size <? len then
    if byteorder =s "big" then slice_from (len - size) array
    else slice_to size array
  else if size >? len then
    let padding := repeat x00 (Z.to_nat (size - len)) in
    if byteorder =s "big" then padding ++ array else array ++ padding
  else array.

(** The little-endian digits of [n] in base 256, [count] of them. *)
Fixpoint le_digits (count : nat) (n : Z) : bytes :=
  match count with
  | O => []
  | S k => byte_of_Z n :: le_digits k (n / 256)
  end.

Fixpoint le_value (array : bytes) : Z :=
  match array with
  | [] => 0
  | b :: rest => Z_of_byte b + 256 * le_value rest
  end.

(** [int.to_bytes(length, byteorder)] (unsigned), for a valid order. *)
Definition int_to_bytes (n : Z) (length : Z) (byteorder : string) : result bytes :=
  if n <? 0 then Raise OverflowError
  else if length <? 0 then Raise ValueError
  else if 256 ^ length <=? n then Raise OverflowError
  else
    let le := le_digits (Z.to_nat length) n in
    Ok (if byteorder =s "big" then rev le else le).

(** [int.from_bytes(array, byteorder)] (unsigned), for a valid order. *)
Definition int_from_bytes (array : bytes) (byteorder : string) : Z :=
  if byteorder =s "big" then le_value (rev array) else le_value array.

(** [from_int] *)
Definition from_int (dflt : string) (value : Z) (size : Z)
  (byteorder : option string) : result bytes :=
  let byteorder := order_or_default byteorder dflt in
  if negb (valid_order byteorder) then order_error
  else
    do value <- int_to_bytes value ((bit_length value + 7) / 8) byteorder;
    let size :=
      if Z.of_nat (List.length value) =? 0
      then (if size =? 0 then 1 else size)
      else size in
    Ok (resize dflt value
          (if size =? 0 then Z.of_nat (List.length value) else size)
          (Some byteorder)).

(** [to_int] *)
Definition to_int (dflt : string) (array : bytes)
  (byteorder : option string) : result Z :=
  let byteorder := order_or_default byteorder dflt in
  if negb (valid_order byteorder) then order_error
  else Ok (int_from_bytes array byteorder).

(** The loop of [int_to_bit_list]: [size] times, append [n & 1] and shift. *)
Fixpoint low_bits (size : nat) (n : Z) : list Z :=
  match size with
  | O => []
  | S k => Z.land n 1 :: low_bits k (Z.shiftr n 1)
  end.

(** [int_to_bit_list] *)
Definition int_to_bit_list (dflt : string) (n : Z) (size : Z)
  (byteorder : option string) : result (list Z) :=
  let byteorder := order_or_default byteorder dflt in
  if negb (valid_order byteorder) then order_error
  else
    let t := low_bits (Z.to_nat size) n in
    Ok (if byteorder =s "big" then rev t else t).

(** The loop of [bit_list_to_int]: [n <<= 1; n += b]. *)
Definition shift_in (t : list Z) : Z :=
  fold_left (fun n b => Z.shiftl n 1 + b) t 0.

(** [bit_list_to_int] *)
Definition bit_list_to_int (dflt : string) (t : list Z)
  (byteorder : option string) : result Z :=
  let byteorder := order_or_default byteorder dflt in
  if negb (valid_order byteorder) then order_error
  else
    let t := if negb (byteorder =s "big") then rev t else t in
    Ok (shift_in t).

(** [to_bit_list].  The [size] argument is computed and then left unused,
    and [int_to_bit_list] is called without a byte order, as in the source. *)
Definition to_bit_list (dflt : string) (value : bytes)
  (byteorder : option string) : result (list Z) :=
  let byteorder := order_or_default byteorder dflt in
  if negb (valid_order byteorder) then order_error
  else
    let n := int_from_bytes value byteorder in
    int_to_bit_list dflt n (8 * Z.of_nat (List.length value)) None.

(** [from_bit_list] *)
Definition from_bit_list (dflt : string) (bits : list Z)
  (byteorder : option string) : result bytes :=
  let byteorder := order_or_default byteorder dflt in
  if negb (valid_order byteorder) then order_error
  else if negb (Z.of_nat (List.length bits) mod 8 =? 0) then Raise AssertionError
  else
    do n <- bit_list_to_int dflt bits (Some byteorder);
    int_to_bytes n (Z.of_nat (List.length bits) / 8) byteorder.

(** *** KNX addresses *)

(** [str(n)] for an integer. *)
Definition str_of_int (n : Z) : string := NilZero.string_of_int (Z.to_int n).

(** [int(s, 2)] where [s] joins the [str(x)] of the bits.  The bits come from
    [int_to_bit_list], each is [n & 1], so each [str(x)] is one binary digit;
    [int] of the empty string raises. *)
Definition int_base2 (bits : list Z) : result Z :=
  match bits with
  | [] => Raise ValueError
  | _ => Ok (fold_left (fun n b => 2 * n + b) bits 0)
  end.

(** The three numbers [x], [y], [z] that [to_knx] formats; [None] is the
    early [return None] on an empty value. *)
Definition to_knx_parts (dflt : string) (value : bytes) (group : bool)
  : result (option (Z * Z * Z)) :=
  if Z.of_nat (List.length value) =? 0 then Ok None
  else
    let first_chunk_size := if group then 5 else 4 in
    do bitlist <- to_bit_list dflt (slice_to 1 value) None;
    do x <- int_base2 (slice_to first_chunk_size bitlist);
    do y <- int_base2 (slice_from first_chunk_size bitlist);
    do z <- to_int dflt (slice_from 1 value) None;
    Ok (Some (x, y, z)).

(** ["{0}/{1}/{2}".format(x, y, z)] or ["{0}.{1}.{2}".format(x, y, z)]. *)
Definition knx_format (group : bool) (xyz : Z * Z * Z) : string :=
  let '(x, y, z) := xyz in
  let sep := if group then "/" else "." in
  (str_of_int x ++ sep ++ str_of_int y ++ sep ++ str_of_int z)%string.

(** [to_knx] *)
Definition to_knx (dflt : string) (value : bytes) (group : bool)
  : result (option string) :=
  do parts <- to_knx_parts dflt value group;
  Ok (option_map (knx_format group) parts).

(** The text is ASCII: every character is below 128.  A string stands for
    the UTF-8 bytes of a [str]; on ASCII text the two are the same, and the
    embedding of [from_knx] below is the code on ASCII text only: on other
    text [\d] and [int] also read the decimal digits of other scripts, which
    are not modelled.  A statement about [from_knx] on an arbitrary string
    assumes [is_ascii]. *)
Definition is_ascii (s : string) : bool :=
  forallb (fun c => (nat_of_ascii c <? 128)%nat) (list_ascii_of_string s).

(** [\d] on a character of ASCII text. *)
Definition is_digit (c : ascii) : bool :=
  let n := nat_of_ascii c in
  ((48 <=? n) && (n <=? 57))%nat.

(** [\d{0,most}] taken greedily: the digits read and the rest of the text.
    In the two patterns of [from_knx] a group of digits is followed by a
    separator that is not a digit (or by the end of the pattern), so the
    greedy choice is the only one that can match. *)
Fixpoint digits (most : nat) (s : string) : string * string :=
  match most, s with
  | S m, String c r =>
      if is_digit c
      then let (d, r') := digits m r in (String c d, r')
      else (EmptyString, s)
  | _, _ => (EmptyString, s)
  end.

Definition expect (sep : ascii) (s : string) : option string :=
  match s with
  | String c r => if Ascii.eqb c sep then Some r else None
  | EmptyString => None
  end.

(** [match("(\d{1,2})SEP(\d{1,2})SEP(\d{1,3})", address)], the three groups,
    for an ASCII address. *)
Definition match_address (sep : ascii) (address : string)
  : option (string * string * string) :=
  let (x, r) := digits 2 address in
  if x =s EmptyString then None
  else match expect sep r with
       | None => None
       | Some r =>
           let (y, r) := digits 2 r in
           if y =s EmptyString then None
           else match expect sep r with
                | None => None
                | Some r =>
                    let (z, _) := digits 3 r in
                    if z =s EmptyString then None else Some (x, y, z)
                end
       end.

(** [int(s)] on a string of ASCII decimal digits. *)
Definition int_of_digits (s : string) : Z :=
  fold_left (fun n c => 10 * n + (Z.of_nat (nat_of_ascii c) - 48))
    (list_ascii_of_string s) 0.

(** The first byte computed by [from_knx] once [x] and [y] are converted
    to [int]: the bit lists are cut, joined and converted back. *)
Definition knx_first_byte (dflt : string) (first_chunk_size : Z) (x y : Z)
  : result bytes :=
  do xbits <- int_to_bit_list dflt x 8 None;
  let x := slice_from (8 - first_chunk_size) xbits in
  do ybits <- int_to_bit_list dflt y 8 None;
  let y := slice_from first_chunk_size ybits in
  do n <- bit_list_to_int dflt (x ++ y) None;
  from_int dflt n 0 None.

(** The end of [from_knx]: [b''.join([b1, b2])]. *)
Definition knx_pack (dflt : string) (first_chunk_size : Z) (x y z : Z)
  : result bytes :=
  do b1 <- knx_first_byte dflt first_chunk_size x y;
  do b2 <- from_int dflt z 0 None;
  Ok (b1 ++ b2).

(** [from_knx] on an ASCII address; [None] is the [return None] on a string
    that matches neither pattern. *)
Definition from_knx (dflt : string) (address : string) : result (option bytes) :=
  let '(addr, first_chunk_size) :=
    match match_address "." address with
    | Some groups => (Some groups, 4)
    | None => (match_address "/" address, 5)
    end in
  match addr with
  | None => Ok None
  | Some (x, y, z) =>
      do b <- knx_pack dflt first_chunk_size
                (int_of_digits x) (int_of_digits y) (int_of_digits z);
      Ok (Some b)
  end.

(** The integers from 0 to [n - 1]. *)
Definition range (n : nat) : list Z := map Z.of_nat (seq 0 n).

(** The first byte of a group address is [x] on five bits then [y] on three
    bits, as a test on one pair. *)
Definition group_first_byte_ok (x y : Z) : bool :=
  match knx_first_byte "big" 5 x y with
  | Ok [b] => Byte.eqb b (byte_of_Z ((x mod 32) * 8 + y mod 8))
  | _ => false
  end.

End ByteCodec.

(** * OPC UA specification, fields and blocks *)

Module Opcua.

(** A value of a [defaults] dictionary or an identifier of a code table: a
    [str] or a [bytes] object. *)
Inductive pyvalue : Type :=
| PStr (s : string)
| PBytes (b : bytes).

(** A Python dictionary with [str] keys, in insertion order; keys are
    unique, lookup takes the first entry of a key. *)
Definition dict (V : Type) : Type := list (string * V).

Fixpoint dict_get {V : Type} (d : dict V) (key : string) : option V :=
  match d with
  | [] => None
  | (k, v) :: rest => if key =s k then Some v else dict_get rest key
  end.

(** [key in d] *)
Definition dict_mem {V : Type} (d : dict V) (key : string) : bool :=
  match dict_get d key with
  | Some _ => true
  | None => false
  end.

(** An item template of [opcua.json]: the keys ["name"], ["type"] and
    ["size"] of the dictionary; ["type"] and ["size"] may be absent. *)
Record item_template : Type := {
  it_name : string;
  it_type : option string;
  it_size : option nat
}.

(** The content of [opcua.json], as [BOFSpec] loads it: [self.blocks] and
    [self.codes]. *)
Record OpcuaSpec : Type := {
  blocks : dict (list item_template);
  codes : dict (dict string)
}.

(** Modelled from the spec: [BOFSpec._get_dict_value] is not part of the
    sources; the lookup of a block template is an exact-name lookup, and an
    absent name is "not found". *)
Definition _get_dict_value {V : Type} (d : dict V) (key : string) : option V :=
  dict_get d key.

(** Modelled from the spec: [BOFSpec._get_dict_key] is not part of the
    sources; it gives the name of the code table to look into, and a table
    that does not exist is a failed code-table lookup, an error. *)
Definition _get_dict_key {V : Type} (d : dict V) (key : string) : result string :=
  if dict_mem d key then Ok key
  else Raise (BOFProgrammingError "Association not found").

(** [OpcuaSpec.get_block_template]; an empty name is falsy as [None] is. *)
Definition get_block_template (spec : OpcuaSpec) (block_name : option string)
  : option (list item_template) :=
  match block_name with
  | None => None
  | Some name =>
      if name =s EmptyString then None else _get_dict_value (blocks spec) name
  end.

(** [OpcuaSpec.get_item_template] *)
Definition get_item_template (spec : OpcuaSpec) (block_name item_name : string)
  : option item_template :=
  match dict_get (blocks spec) block_name with
  | Some items => find (fun item => it_name item =s item_name) items
  | None => None
  end.

Fixpoint bytes_eqb (a b : bytes) : bool :=
  match a, b with
  | [], [] => true
  | x :: a', y :: b' => Byte.eqb x y && bytes_eqb a' b'
  | _, _ => false
  end.

(** [str.encode(key)] *)
Definition str_encode (key : string) : bytes := list_byte_of_string key.

(** [for key in table: if test(key): return table[key]] *)
Fixpoint first_match (test : string -> bool) (table : dict string)
  : option string :=
  match table with
  | [] => None
  | (key, name) :: rest =>
      if test key then Some name else first_match test rest
  end.

(** [OpcuaSpec.get_code_name] *)
Definition get_code_name (spec : OpcuaSpec) (code_name : string)
  (identifier : pyvalue) : result (option string) :=
  do code_name <- _get_dict_key (codes spec) code_name;
  match dict_get (codes spec) code_name with
  | None => Raise (KeyError code_name)
  | Some table =>
      match identifier with
      | PBytes b => Ok (first_match (fun key => bytes_eqb b (str_encode key)) table)
      | PStr s => Ok (first_match (fun key => s =s key) table)
      end
  end.

(** ** Fields and blocks *)

Record OpcuaField : Type := {
  f_name : string;
  f_size : nat;
  f_value : bytes
}.

(** Modelled from the spec: the constructor of [BOFField] is not part of the
    sources.  It binds the name and the declared size of the template (0
    when there is none) and truncates the value to at most the declared size,
    the size 0 being unbounded. *)
Definition new_field (template : item_template) (value : bytes) : OpcuaField :=
  let size := match it_size template with Some n => n | None => O end in
  {| f_name := it_name template;
     f_size := size;
     f_value := if (size =? 0)%nat then value else firstn size value |}.

(** The children of a block: fields and blocks. *)
Inductive item : Type :=
| Field (f : OpcuaField)
| Block (name : string) (content : list item).

Record OpcuaBlock : Type := {
  b_name : string;
  b_content : list item
}.

Definition as_item (b : OpcuaBlock) : item := Block (b_name b) (b_content b).

(** Modelled from the spec: [bytes(item)] of [BOFField] and [BOFBlock] is
    not part of the sources; serialization concatenates the byte values of the
    leaves in the order of the children. *)
Fixpoint item_bytes (i : item) : bytes :=
  match i with
  | Field f => f_value f
  | Block _ content => flat_map item_bytes content
  end.

Definition block_bytes (b : OpcuaBlock) : bytes := item_bytes (as_item b).

(** Modelled from the spec: [len(item)] of [BOFField] and [BOFBlock] is not
    part of the sources; the length of a field is the length of its value and
    the length of a block is the sum of the lengths of its children. *)
Fixpoint item_len (i : item) : nat :=
  match i with
  | Field f => List.length (f_value f)
  | Block _ content => list_sum (map item_len content)
  end.

(** The first field of a given name in an item and below it, in the order of
    the children. *)
Fixpoint find_field (name : string) (i : item) : option OpcuaField :=
  match i with
  | Field f => if f_name f =s name then Some f else None
  | Block _ content =>
      (fix first (l : list item) : option OpcuaField :=
         match l with
         | [] => None
         | i' :: rest =>
             match find_field name i' with
             | Some f => Some f
             | None => first rest
             end
         end) content
  end.

(** The [parent] of a block under construction: the children its parent has
    built so far, then those of the parent's parent, and so on; the empty
    list when there is no parent. *)
Definition parents : Type := list (list item).

(** Modelled from the spec: [BOFBlock._get_depends_block] is not part of the
    sources.  It walks the parent chain upward, looks for a field of the
    name of the dependency among the children already built, and resolves
    the value of the first one found in the code table of that name. *)
Fixpoint _get_depends_block (spec : OpcuaSpec) (parent : parents)
  (dependency : string) : result (option string) :=
  match parent with
  | [] => Ok None
  | content :: up =>
      match find_field dependency (Block EmptyString content) with
      | Some f => get_code_name spec dependency (PBytes (f_value f))
      | None => _get_depends_block spec up dependency
      end
  end.

(** The keyword arguments of [OpcuaBlock] and of [OpcuaBlock.factory]; a
    keyword that is not given is [None] (no parent: the empty chain). *)
Record kwargs : Type := {
  kw_name : option string;
  kw_type : option string;
  kw_item_template_block : option item_template;
  kw_defaults : option (dict pyvalue);
  kw_value : option bytes;
  kw_parent : parents
}.

(** [s.split(":")] *)
Fixpoint split_colon (s : string) : list string :=
  match s with
  | EmptyString => [EmptyString]
  | String c rest =>
      if Ascii.eqb c ":" then EmptyString :: split_colon rest
      else match split_colon rest with
           | [] => [String c EmptyString]
           | w :: ws => String c w :: ws
           end
  end.

(** [OpcuaBlock.factory].  [make_block] is the constructor [OpcuaBlock]. *)
Definition factory (make_block : kwargs -> result OpcuaBlock)
  (item_template : item_template) (kw : kwargs) : result item :=
  if match it_type item_template with
     | Some t => t =s "field"
     | None => false
     end
  then
    do value <-
      (if match kw_defaults kw with
          | Some defaults => dict_mem defaults (it_name item_template)
          | None => false
          end
       then Raise (NameError "template")
       else
         match kw_value kw with
         | Some ((_ :: _) as value) =>
             match it_size item_template with
             | Some size => Ok (firstn size value)
             | None => Raise (KeyError "size")
             end
         | _ => Ok []
         end);
    Ok (Field (new_field item_template value))
  else
    do b <- make_block
      {| kw_name := kw_name kw;
         kw_type := kw_type kw;
         kw_item_template_block := Some item_template;
         kw_defaults := kw_defaults kw;
         kw_value := kw_value kw;
         kw_parent := kw_parent kw |};
    Ok (as_item b).

(** The keyword arguments that the loop of [OpcuaBlock.__init__] gives to
    the factory: [defaults=defaults, value=value, parent=self]. *)
Definition loop_kwargs (defaults : dict pyvalue) (value : bytes)
  (content : list item) (parent : parents) : kwargs :=
  {| kw_name := None;
     kw_type := None;
     kw_item_template_block := None;
     kw_defaults := Some defaults;
     kw_value := Some value;
     kw_parent := content :: parent |}.

(** The loop of [OpcuaBlock.__init__] over the item templates.  [content] is
    what [self] holds so far, [parent] is the chain above [self]; an empty
    [value] is falsy, as the default [{}] is. *)
Fixpoint build_items (make_block : kwargs -> result OpcuaBlock)
  (block_template : list item_template) (defaults : dict pyvalue)
  (value : bytes) (parent : parents) (content : list item)
  : result (list item) :=
  match block_template with
  | [] => Ok content
  | item_template :: rest =>
      do new_item <- factory make_block item_template
                       (loop_kwargs defaults value content parent);
      let content := content ++ [new_item] in
      match value with
      | [] => build_items make_block rest defaults value parent content
      | _ :: _ =>
          if (List.length value <=? item_len new_item)%nat
          then Ok content
          else build_items make_block rest defaults
                 (skipn (item_len new_item) value) parent content
      end
  end.

(** The type of the block: the keyword [type], else the type of the item
    template; [None] when there is neither. *)
Definition given_block_type (kw : kwargs) : option string :=
  match kw_type kw with
  | Some t => Some t
  | None =>
      match kw_item_template_block kw with
      | Some template => it_type template
      | None => None
      end
  end.

(** The resolution of a dependency in [OpcuaBlock.__init__].  The test
    [dependency == None] of the source never holds, a lookup that finds
    nothing leaves the type [None]. *)
Definition resolve_block_type (spec : OpcuaSpec) (defaults : dict pyvalue)
  (parent : parents) (block_type : string) : result (option string) :=
  if String.prefix "depends:" block_type then
    let dependency := nth 1 (split_colon block_type) EmptyString in
    match dict_get defaults dependency with
    | Some identifier => get_code_name spec dependency identifier
    | None =>
        do found <- _get_depends_block spec parent dependency;
        match found with
        | None =>
            Raise (BOFProgrammingError
                     "No valid association found in parents for dependency.")
        | Some t => Ok (Some t)
        end
    end
  else Ok (Some block_type).

(** The end of [OpcuaBlock.__init__], from the resolved type on. *)
Definition build_block (spec : OpcuaSpec)
  (make_block : kwargs -> result OpcuaBlock) (defaults : dict pyvalue)
  (value : bytes) (parent : parents) (block_type : option string)
  : result OpcuaBlock :=
  match block_type, get_block_template spec block_type with
  | Some name, Some ((_ :: _) as block_template) =>
      do content <- build_items make_block block_template defaults value parent [];
      Ok {| b_name := name; b_content := content |}
  | _, _ =>
      Raise (BOFProgrammingError "Block type not found in specifications.")
  end.

(** [kwargs["defaults"] if "defaults" in kwargs else {}] *)
Definition defaults_of (kw : kwargs) : dict pyvalue :=
  match kw_defaults kw with Some d => d | None => [] end.

(** [kwargs["value"] if "value" in kwargs else {}]; the empty dictionary is
    falsy and is never sliced, it is the empty value here. *)
Definition value_of (kw : kwargs) : bytes :=
  match kw_value kw with Some v => v | None => [] end.

(** Modelled from the spec: [BOFBlock.__init__] is not part of the sources.
    The block it leaves has the name given as keyword, if any, and an empty
    list of children. *)
Definition BOFBlock_init (kw : kwargs) : OpcuaBlock :=
  {| b_name := match kw_name kw with Some n => n | None => EmptyString end;
     b_content := [] |}.

(** The body of [OpcuaBlock.__init__]; [make_block] is the constructor for
    the nested blocks. *)
Definition init_body (spec : OpcuaSpec)
  (make_block : kwargs -> result OpcuaBlock) (kw : kwargs) : result OpcuaBlock :=
  let self := BOFBlock_init kw in
  let defaults := defaults_of kw in
  let value := value_of kw in
  match given_block_type kw with
  | None => Ok self
  | Some block_type =>
      do block_type <- resolve_block_type spec defaults (kw_parent kw) block_type;
      build_block spec make_block defaults value (kw_parent kw) block_type
  end.

(** The constructor [OpcuaBlock] on its keyword arguments.  [depth] bounds
    the nesting of blocks, as the recursion limit of the interpreter does. *)
Fixpoint OpcuaBlock_init (spec : OpcuaSpec) (depth : nat) (kw : kwargs)
  : result OpcuaBlock :=
  init_body spec
    (match depth with
     | O => fun _ => Raise RecursionError
     | S d => OpcuaBlock_init spec d
     end) kw.

(** ** Declared sizes *)

(** The declared size of an item: the ["size"] of a field, the declared size
    of the block type of a nested block.  An item without a type, without a
    size or with a dependency as type has none. *)
Definition item_declared_size (block_size : string -> option nat)
  (item_template : item_template) : option nat :=
  match it_type item_template with
  | Some t => if t =s "field" then it_size item_template else block_size t
  | None => None
  end.

Fixpoint template_declared_size (block_size : string -> option nat)
  (block_template : list item_template) : option nat :=
  match block_template with
  | [] => Some O
  | item_template :: rest =>
      match item_declared_size block_size item_template,
            template_declared_size block_size rest with
      | Some a, Some b => Some (a + b)%nat
      | _, _ => None
      end
  end.

(** The total declared size of a block type of the specification whose
    template is not empty. *)
Fixpoint declared_size (spec : OpcuaSpec) (depth : nat) (block_type : string)
  : option nat :=
  if String.prefix "depends:" block_type then None
  else
    match get_block_template spec (Some block_type) with
    | Some ((_ :: _) as block_template) =>
        template_declared_size
          (match depth with
           | O => fun _ => None
           | S d => declared_size spec d
           end) block_template
    | _ => None
    end.

(** ** A sample specification *)

Module Samples.

Definition field_item (name : string) (size : nat) : item_template :=
  {| it_name := name; it_type := Some "field"; it_size := Some size |}.

Definition block_item (name type : string) : item_template :=
  {| it_name := name; it_type := Some type; it_size := None |}.

(** A header of four bytes, a body of six bytes for the message type HEL, a
    pair of one-byte fields, and a block type without items. *)
Definition sample_spec : OpcuaSpec :=
  {| blocks :=
       [("HEADER", [field_item "message_type" 3; field_item "chunk_type" 1]);
        ("HEL_BODY", [field_item "protocol_version" 4; field_item "port" 2]);
        ("PAIR", [field_item "first" 1; field_item "second" 1]);
        ("MESSAGE", [block_item "header" "HEADER"; block_item "body" "HEL_BODY"]);
        ("EMPTY", [])];
     codes := [("message_type", [("HEL", "HEL_BODY"); ("ACK", "PAIR")])] |}.

(** [OpcuaBlock(type=block_type, value=value)] *)
Definition parse_kwargs (block_type : string) (value : bytes) : kwargs :=
  {| kw_name := None;
     kw_type := Some block_type;
     kw_item_template_block := None;
     kw_defaults := None;
     kw_value := Some value;
     kw_parent := [] |}.

(** [OpcuaBlock(type=block_type, defaults=defaults)] *)
Definition defaults_kwargs (block_type : string) (defaults : dict pyvalue)
  : kwargs :=
  {| kw_name := None;
     kw_type := Some block_type;
     kw_item_template_block := None;
     kw_defaults := Some defaults;
     kw_value := None;
     kw_parent := [] |}.

(** [OpcuaBlock()] *)
Definition no_kwargs : kwargs :=
  {| kw_name := None;
     kw_type := None;
     kw_item_template_block := None;
     kw_defaults := None;
     kw_value := None;
     kw_parent := [] |}.

End Samples.

End Opcua.

(** * MAC addresses and further helpers *)

Module Addresses.
Import ByteCodec.

(** One digit of ["%x" % n], for [n] from 0 to 15. *)
Definition hex_digit (n : Z) : ascii :=
  nth (Z.to_nat n) (list_ascii_of_string "0123456789abcdef") "0"%char.

(** ["%02x" % b] for a byte. *)
Definition hex2 (b : byte) : string :=
  String (hex_digit (Z_of_byte b / 16))
    (String (hex_digit (Z_of_byte b mod 16)) EmptyString).

(** [sep.join(parts)] *)
Fixpoint join (sep : string) (parts : list string) : string :=
  match parts with
  | [] => EmptyString
  | [p] => p
  | p :: rest => (p ++ sep ++ join sep rest)%string
  end.

(** [to_mac] *)
Definition to_mac (array : bytes) : string := join ":" (map hex2 array).

(** [s.replace(":", "")] *)
Fixpoint remove_colons (s : string) : string :=
  match s with
  | EmptyString => EmptyString
  | String c rest =>
      if Ascii.eqb c ":" then remove_colons rest
      else String c (remove_colons rest)
  end.

(** The value of a hexadecimal digit, in either case; [None] for any other
    character. *)
Definition hex_value (c : ascii) : option Z :=
  let n := Z.of_nat (nat_of_ascii c) in
  if (48 <=? n) && (n <=? 57) then Some (n - 48)
  else if (97 <=? n) && (n <=? 102) then Some (n - 87)
  else if (65 <=? n) && (n <=? 70) then Some (n - 55)
  else None.

(** ASCII whitespace: space, tab, line feed, vertical tab, form feed and
    carriage return. *)
Definition is_space (c : ascii) : bool :=
  let n := Z.of_nat (nat_of_ascii c) in
  (n =? 32) || ((9 <=? n) && (n <=? 13)).

(** [bytes.fromhex(s)]: pairs of hexadecimal digits, with ASCII whitespace
    allowed between the pairs (Python 3.7 and later); anything else raises
    [ValueError]. *)
Fixpoint fromhex (s : string) : result bytes :=
  match s with
  | EmptyString => Ok []
  | String c rest =>
      if is_space c then fromhex rest
      else
        match hex_value c, rest with
        | Some top, String d rest' =>
            match hex_value d with
            | Some bot =>
                do tail <- fromhex rest';
                Ok (byte_of_Z (top * 16 + bot) :: tail)
            | None => Raise ValueError
            end
        | _, _ => Raise ValueError
        end
  end.

(** [from_mac] *)
Definition from_mac (mac : string) : result bytes :=
  fromhex (remove_colons mac).

(** The bytes of the little-endian digits [le], in the given byte order. *)
Definition in_order (byteorder : string) (le : bytes) : bytes :=
  if byteorder =s "big" then rev le else le.

(** The first byte of an individual address is [x] on four bits then [y] on
    four bits, as a test on one pair. *)
Definition individual_first_byte_ok (x y : Z) : bool :=
  match knx_first_byte "big" 4 x y with
  | Ok [b] => Byte.eqb b (byte_of_Z ((x mod 16) * 16 + y mod 16))
  | _ => false
  end.

(** [from_knx(to_knx(value, group))] on a value of two bytes. *)
Definition knx_there_and_back (group : bool) (b1 b2 : byte)
  : result (option bytes) :=
  do address <- to_knx "big" [b1; b2] group;
  match address with
  | Some a => from_knx "big" a
  | None => Ok None
  end.

(** A bit: the integer 0 or 1. *)
Definition is_bit (b : Z) : Prop := b = 0 \/ b = 1.

(** [int(str(n)) == n], as a test on one integer. *)
Definition str_int_ok (n : Z) : bool :=
  (int_of_digits (str_of_int n) =? n)
  && negb (str_of_int n =s EmptyString).

(** [\d{1,3}] reads the whole of [str(n)], as a test on one integer. *)
Definition digits3_ok (n : Z) : bool :=
  let (d, r) := digits 3 (str_of_int n) in
  (d =s str_of_int n) && (r =s EmptyString).

End Addresses.

(** * Shapes of the blocks built *)

Module Shapes.
Import Opcua.

(** A child is one that the factory builds for an item template: a field of
    the name of a field item, a block for any other item. *)
Definition built_from (template : item_template) (child : item) : Prop :=
  match child with
  | Field f => it_type template = Some "field" /\ f_name f = it_name template
  | Block _ _ => it_type template <> Some "field"
  end.

(** [":" in s] *)
Fixpoint has_colon (s : string) : bool :=
  match s with
  | EmptyString => false
  | String c rest => Ascii.eqb c ":" || has_colon rest
  end.

End Shapes.

(** * Properties of the byte codec *)

Module ByteCodecProofs.
Import ByteCodec.

Lemma Z_of_byte_range (b : byte) : 0 <= Z_of_byte b < 256.
Proof.
  unfold Z_of_byte. pose proof (Byte.to_N_bounded b). lia.
Qed.

Lemma Z_of_byte_of_Z (z : Z) : Z_of_byte (byte_of_Z z) = z mod 256.
Proof.
  unfold Z_of_byte, byte_of_Z.
  assert (Hr : 0 <= z mod 256 < 256) by (apply Z.mod_pos_bound; lia).
  destruct (Byte.of_N (Z.to_N (z mod 256))) as [b|] eqn:E.
  - apply Byte.to_of_N in E. rewrite E. lia.
  - apply Byte.of_N_None_iff in E. lia.
Qed.

Lemma le_value_le_digits (k : nat) :
  forall n, 0 <= n < 256 ^ Z.of_nat k -> le_value (le_digits k n) = n.
Proof.
  induction k as [|k IH]; intros n Hn.
  - simpl in *. lia.
  - cbn [le_digits le_value]. rewrite Z_of_byte_of_Z.
    rewrite IH.
    + pose proof (Z.div_mod n 256 ltac:(lia)). lia.
    + rewrite Nat2Z.inj_succ, Z.pow_succ_r in Hn by lia.
      split; [apply Z.div_pos; lia | apply Z.div_lt_upper_bound; lia].
Qed.

Lemma le_digits_length (k : nat) : forall n, List.length (le_digits k n) = k.
Proof. induction k; intros; simpl; auto. Qed.

Lemma le_value_app (a b : bytes) :
  le_value (a ++ b) = le_value a + 256 ^ Z.of_nat (List.length a) * le_value b.
Proof.
  induction a as [|x a IH]; cbn [le_value app List.length].
  - change (Z.of_nat 0) with 0. rewrite Z.pow_0_r. lia.
  - rewrite IH, Nat2Z.inj_succ, Z.pow_succ_r by lia. ring.
Qed.

Lemma le_value_zeros (m : nat) : le_value (repeat x00 m) = 0.
Proof. induction m; simpl; auto. rewrite IHm. reflexivity. Qed.

Lemma rev_repeat {A : Type} (x : A) (m : nat) : rev (repeat x m) = repeat x m.
Proof.
  induction m as [|m IH]; simpl; auto.
  rewrite IH. clear IH. induction m; simpl; congruence.
Qed.

Lemma bit_length_bound (n : Z) : 0 <= n -> n < 2 ^ bit_length n.
Proof.
  intros Hn. unfold bit_length.
  destruct (n =? 0) eqn:E.
  - apply Z.eqb_eq in E. subst. simpl. lia.
  - apply Z.eqb_neq in E. rewrite Z.abs_eq by lia.
    apply Z.log2_spec. lia.
Qed.

Lemma bit_length_nonneg (n : Z) : 0 <= bit_length n.
Proof.
  unfold bit_length. destruct (n =? 0); [lia|].
  pose proof (Z.log2_nonneg (Z.abs n)). lia.
Qed.

Lemma get_size_int_nonneg (n : Z) : 0 <= get_size_int n.
Proof.
  unfold get_size_int. apply Z.div_pos; [|lia].
  pose proof (bit_length_nonneg n). lia.
Qed.

Lemma get_size_int_fits (n : Z) : 0 <= n -> n < 256 ^ get_size_int n.
Proof.
  intros Hn. pose proof (bit_length_bound n Hn) as Hb.
  pose proof (bit_length_nonneg n) as H0.
  unfold get_size_int.
  replace 256 with (2 ^ 8) by reflexivity.
  rewrite <- Z.pow_mul_r by (try lia; apply Z.div_pos; lia).
  eapply Z.lt_le_trans; [exact Hb|].
  apply Z.pow_le_mono_r; [lia|].
  pose proof (Z.div_mod (bit_length n + 7) 8 ltac:(lia)).
  pose proof (Z.mod_pos_bound (bit_length n + 7) 8 ltac:(lia)). lia.
Qed.

Lemma valid_order_cases (o : string) :
  valid_order o = true -> o = "big" \/ o = "little".
Proof.
  unfold valid_order. intros H. apply orb_true_iff in H.
  destruct H as [H|H]; apply String.eqb_eq in H; auto.
Qed.

Lemma order_or_default_valid (dflt o : string) :
  valid_order o = true -> order_or_default (Some o) dflt = o.
Proof.
  intros H. destruct (valid_order_cases o H); subst; reflexivity.
Qed.

(** ** [resize] *)

Lemma resize_same (dflt : string) (array : bytes) (o : option string) :
  resize dflt array (Z.of_nat (List.length array)) o = array.
Proof.
  unfold resize.
  rewrite Z.gtb_ltb, Z.ltb_irrefl. reflexivity.
Qed.

Lemma resize_pad (dflt : string) (array : bytes) (size : Z) (o : string) :
  valid_order o = true ->
  Z.of_nat (List.length array) < size ->
  resize dflt array size (Some o) =
    let padding := repeat x00 (Z.to_nat (size - Z.of_nat (List.length array))) in
    if o =s "big" then padding ++ array else array ++ padding.
Proof.
  intros Ho Hlt. unfold resize. rewrite order_or_default_valid by assumption.
  destruct (size <? Z.of_nat (List.length array)) eqn:E1;
    [apply Z.ltb_lt in E1; lia|].
  destruct (size >? Z.of_nat (List.length array)) eqn:E2; [reflexivity|].
  rewrite Z.gtb_ltb in E2. apply Z.ltb_ge in E2. lia.
Qed.

Lemma resize_truncate (dflt : string) (array : bytes) (size : Z) (o : string) :
  valid_order o = true ->
  0 <= size < Z.of_nat (List.length array) ->
  resize dflt array size (Some o) =
    if o =s "big"
    then skipn (List.length array - Z.to_nat size) array
    else firstn (Z.to_nat size) array.
Proof.
  intros Ho [H0 Hlt]. unfold resize. rewrite order_or_default_valid by assumption.
  destruct (size <? Z.of_nat (List.length array)) eqn:E1;
    [|apply Z.ltb_ge in E1; lia].
  unfold slice_from, slice_to.
  destruct (Z.of_nat (List.length array) - size <? 0) eqn:E2;
    [apply Z.ltb_lt in E2; lia|].
  destruct (size <? 0) eqn:E3; [apply Z.ltb_lt in E3; lia|].
  replace (Z.to_nat (Z.of_nat (List.length array) - size))
    with (List.length array - Z.to_nat size)%nat by lia.
  reflexivity.
Qed.

(** C6.  [resize] is the identity at the array's own size; a smaller size
    keeps the last [size] bytes in big endian and the first [size] bytes in
    little endian; a larger size adds zero bytes in front in big endian and
    at the end in little endian; and the two bytes D2 D2 resized to one byte
    in big endian are the single byte D2. *)
Theorem resize_contract (dflt : string) (array : bytes) (size : Z) :
  0 <= size ->
  let len := Z.of_nat (List.length array) in
  let n := Z.to_nat size in
  let big := resize dflt array size (Some "big") in
  let little := resize dflt array size (Some "little") in
  (size = len -> forall o, resize dflt array size o = array) /\
  (size < len ->
     big = skipn (List.length array - n) array /\
     little = firstn n array /\
     List.length big = n /\ List.length little = n) /\
  (size > len ->
     big = repeat x00 (n - List.length array) ++ array /\
     little = array ++ repeat x00 (n - List.length array)) /\
  resize dflt [xd2; xd2] 1 (Some "big") = [xd2].
Proof.
  intros Hsize len n big little. repeat split.
  - intros -> o. apply resize_same.
  - subst big. rewrite resize_truncate by (auto; subst len; lia). reflexivity.
  - subst little. rewrite resize_truncate by (auto; subst len; lia). reflexivity.
  - subst big. rewrite resize_truncate by (auto; subst len; lia).
    cbn [String.eqb Ascii.eqb Bool.eqb]. rewrite length_skipn. subst len n. lia.
  - subst little. rewrite resize_truncate by (auto; subst len; lia).
    cbn [String.eqb Ascii.eqb Bool.eqb]. rewrite length_firstn. subst len n. lia.
  - subst big. rewrite resize_pad by (auto; subst len; lia).
    cbn zeta. cbn [String.eqb Ascii.eqb Bool.eqb].
    replace (Z.to_nat (size - Z.of_nat (List.length array)))
      with (n - List.length array)%nat by (subst n; lia).
    reflexivity.
  - subst little. rewrite resize_pad by (auto; subst len; lia).
    cbn zeta. cbn [String.eqb Ascii.eqb Bool.eqb].
    replace (Z.to_nat (size - Z.of_nat (List.length array)))
      with (n - List.length array)%nat by (subst n; lia).
    reflexivity.
Qed.

(** The contract at the bytes 01 02 03 resized to two bytes. *)
Lemma resize_contract_witness :
  resize "big" [x01; x02; x03] 2 (Some "big") = [x02; x03] /\
  resize "big" [x01; x02; x03] 2 (Some "little") = [x01; x02].
Proof.
  pose proof (resize_contract "big" [x01; x02; x03] 2 ltac:(lia)) as H.
  cbv zeta in H. destruct H as (_ & H & _).
  destruct (H ltac:(simpl; lia)) as (Hb & Hl & _).
  split; [exact Hb | exact Hl].
Defined.

(** ** Integers to bytes and back *)

Lemma int_from_bytes_padded (o : string) (le : bytes) (m : nat) :
  valid_order o = true ->
  int_from_bytes
    (if o =s "big"
     then repeat x00 m ++ (if o =s "big" then rev le else le)
     else (if o =s "big" then rev le else le) ++ repeat x00 m) o
  = le_value le.
Proof.
  intros Ho. unfold int_from_bytes.
  destruct (valid_order_cases o Ho); subst; cbn [String.eqb Ascii.eqb Bool.eqb].
  - rewrite rev_app_distr, rev_involutive, rev_repeat, le_value_app,
      le_value_zeros. lia.
  - rewrite le_value_app, le_value_zeros. lia.
Qed.

Lemma int_from_bytes_digits (o : string) (le : bytes) :
  valid_order o = true ->
  int_from_bytes (if o =s "big" then rev le else le) o = le_value le.
Proof.
  intros Ho. unfold int_from_bytes.
  destruct (valid_order_cases o Ho); subst; cbn [String.eqb Ascii.eqb Bool.eqb].
  - now rewrite rev_involutive.
  - reflexivity.
Qed.

Lemma length_order (o : string) (le : bytes) :
  List.length (if o =s "big" then rev le else le) = List.length le.
Proof. destruct (o =s "big"); [apply length_rev | reflexivity]. Qed.

(** C7.  For a non-negative integer [n], an order [o] among big and little
    and a size [s] at least [get_size n], [to_int (from_int n s o) o] is
    [n], whatever the default order is. *)
Theorem int_round_trip (dflt : string) (n s : Z) (o : string) :
  0 <= n ->
  valid_order o = true ->
  get_size_int n <= s ->
  (do b <- from_int dflt n s (Some o); to_int dflt b (Some o)) = Ok n.
Proof.
  intros Hn Ho Hs.
  pose proof (get_size_int_fits n Hn) as Hfit.
  pose proof (get_size_int_nonneg n) as Hk.
  unfold from_int, to_int. rewrite order_or_default_valid by assumption.
  rewrite Ho. cbn [negb].
  unfold int_to_bytes. fold (get_size_int n).
  destruct (n <? 0) eqn:E1; [apply Z.ltb_lt in E1; lia|].
  destruct (get_size_int n <? 0) eqn:E2; [apply Z.ltb_lt in E2; lia|].
  destruct (256 ^ get_size_int n <=? n) eqn:E3; [apply Z.leb_le in E3; lia|].
  cbn [bind].
  set (k := Z.to_nat (get_size_int n)).
  set (le := le_digits k n).
  assert (Hlen : List.length le = k) by apply le_digits_length.
  assert (Hval : le_value le = n).
  { apply le_value_le_digits. subst k. rewrite Z2Nat.id by lia. lia. }
  rewrite length_order, Hlen.
  set (size := if Z.of_nat k =? 0 then if s =? 0 then 1 else s else s).
  set (target := if size =? 0 then Z.of_nat k else size).
  assert (Htarget : Z.of_nat k <= target).
  { assert (Hks : Z.of_nat k <= s) by (subst k; lia).
    subst target size.
    destruct (Z.of_nat k =? 0) eqn:Ek; destruct (s =? 0) eqn:Es;
      rewrite ?Es; try reflexivity;
      try apply Z.eqb_eq in Ek; try apply Z.eqb_eq in Es; try lia.
    change (1 =? 0) with false. cbv iota. lia. }
  f_equal.
  destruct (Z.eq_dec target (Z.of_nat k)) as [Heq|Hne].
  - rewrite Heq.
    replace (Z.of_nat k)
      with (Z.of_nat (List.length (if o =s "big" then rev le else le)))
      by (rewrite length_order; lia).
    rewrite resize_same. rewrite int_from_bytes_digits by assumption. exact Hval.
  - rewrite resize_pad by (auto; rewrite length_order; lia).
    cbv zeta. rewrite int_from_bytes_padded by assumption. exact Hval.
Qed.

(** The round trip at 65980 on eight bytes, big endian. *)
Lemma int_round_trip_witness :
  (do b <- from_int "big" 65980 8 (Some "big"); to_int "big" b (Some "big"))
  = Ok 65980.
Proof.
  apply (int_round_trip "big" 65980 8 "big");
    [lia | reflexivity | vm_compute; discriminate].
Defined.

(** ** Bit lists *)

(** C5 (defect of the code).  With the default order big, the bit list of
    the byte 01 taken in little endian and converted back in little endian is
    the byte 80: [to_bit_list] validates its order but builds the list with
    the default one. *)
Theorem bit_list_round_trip_broken :
  (do bits <- to_bit_list "big" [x01] (Some "little");
   from_bit_list "big" bits (Some "little")) = Ok [x80].
Proof. reflexivity. Qed.

(** The round trip does hold when the default order is the order given. *)

Lemma shift_in_snoc (t : list Z) (b : Z) : shift_in (t ++ [b]) = 2 * shift_in t + b.
Proof.
  unfold shift_in. rewrite fold_left_app. cbn [fold_left].
  rewrite Z.shiftl_mul_pow2 by lia. change (2 ^ 1) with 2. lia.
Qed.

Lemma shift_in_low_bits (k : nat) :
  forall n, 0 <= n -> shift_in (rev (low_bits k n)) = n mod 2 ^ Z.of_nat k.
Proof.
  induction k as [|k IH]; intros n Hn.
  - cbn [low_bits rev]. change (2 ^ Z.of_nat 0) with 1. now rewrite Z.mod_1_r.
  - cbn [low_bits rev]. rewrite shift_in_snoc.
    rewrite Z.shiftr_div_pow2 by lia. change (2 ^ 1) with 2.
    rewrite IH by (apply Z.div_pos; lia).
    change 1 with (Z.ones 1) at 1. rewrite Z.land_ones by lia.
    change (2 ^ 1) with 2.
    rewrite Nat2Z.inj_succ, Z.pow_succ_r by lia.
    rewrite Z.rem_mul_r by lia. lia.
Qed.

Lemma low_bits_length (k : nat) : forall n, List.length (low_bits k n) = k.
Proof. induction k; intros; cbn [low_bits List.length]; auto. Qed.

Lemma byte_of_Z_of_byte (b : byte) (r : Z) : byte_of_Z (Z_of_byte b + 256 * r) = b.
Proof.
  unfold byte_of_Z.
  replace ((Z_of_byte b + 256 * r) mod 256) with (Z_of_byte b).
  - unfold Z_of_byte. rewrite N2Z.id, Byte.of_to_N. reflexivity.
  - pose proof (Z_of_byte_range b).
    replace (Z_of_byte b + 256 * r) with (Z_of_byte b + r * 256) by lia.
    rewrite Z.mod_add by lia. symmetry. now apply Z.mod_small.
Qed.

Lemma le_value_range (l : bytes) : 0 <= le_value l < 256 ^ Z.of_nat (List.length l).
Proof.
  induction l as [|b l IH]; cbn [le_value List.length].
  - change (256 ^ Z.of_nat 0) with 1. lia.
  - rewrite Nat2Z.inj_succ, Z.pow_succ_r by lia.
    pose proof (Z_of_byte_range b). lia.
Qed.

Lemma le_digits_le_value (l : bytes) : le_digits (List.length l) (le_value l) = l.
Proof.
  induction l as [|b l IH]; cbn [le_digits le_value List.length].
  - reflexivity.
  - rewrite byte_of_Z_of_byte. f_equal.
    replace ((Z_of_byte b + 256 * le_value l) / 256) with (le_value l).
    + exact IH.
    + pose proof (Z_of_byte_range b).
      replace (Z_of_byte b + 256 * le_value l)
        with (Z_of_byte b + le_value l * 256) by lia.
      rewrite Z.div_add, Z.div_small by lia. lia.
Qed.

Lemma bit_list_round_trip_same_default (o : string) (b : bytes) :
  valid_order o = true ->
  (do bits <- to_bit_list o b (Some o); from_bit_list o bits (Some o)) = Ok b.
Proof.
  intros Ho.
  set (le := if o =s "big" then rev b else b).
  assert (Hlen : List.length le = List.length b).
  { subst le. destruct (o =s "big"); [apply length_rev | reflexivity]. }
  assert (Hn : int_from_bytes b o = le_value le).
  { unfold int_from_bytes. subst le. now destruct (o =s "big"). }
  assert (Hle : Ok (if o =s "big" then rev le else le) = Ok b).
  { subst le. destruct (o =s "big"); [now rewrite rev_involutive | reflexivity]. }
  pose proof (le_value_range le) as Hrange. rewrite Hlen in Hrange.
  unfold to_bit_list, int_to_bit_list, from_bit_list, bit_list_to_int.
  assert (Hd : order_or_default None o = o) by reflexivity.
  rewrite !order_or_default_valid by assumption.
  rewrite Hd, !Ho, Hn. cbn [negb bind].
  clearbody le. remember (List.length b) as k eqn:Hk.
  replace (Z.to_nat (8 * Z.of_nat k)) with (8 * k)%nat by lia.
  set (bits := low_bits (8 * k) (le_value le)).
  assert (Hbits : List.length (if o =s "big" then rev bits else bits)
                  = (8 * k)%nat).
  { destruct (o =s "big"); [rewrite length_rev|]; apply low_bits_length. }
  rewrite Hbits.
  replace (Z.of_nat (8 * k) mod 8 =? 0) with true
    by (symmetry; apply Z.eqb_eq; rewrite Nat2Z.inj_mul, Z.mul_comm;
        apply Z.mod_mul; lia).
  cbn [negb].
  assert (Hshift :
    shift_in (if negb (o =s "big")
              then rev (if o =s "big" then rev bits else bits)
              else (if o =s "big" then rev bits else bits))
    = le_value le).
  { replace (if negb (o =s "big")
             then rev (if o =s "big" then rev bits else bits)
             else (if o =s "big" then rev bits else bits))
      with (rev bits) by (destruct (o =s "big"); reflexivity).
    subst bits. rewrite shift_in_low_bits by lia.
    apply Z.mod_small.
    replace (2 ^ Z.of_nat (8 * k)) with (256 ^ Z.of_nat k); [lia|].
    change 256 with (2 ^ 8). rewrite <- Z.pow_mul_r by lia. f_equal. lia. }
  rewrite Hshift. unfold int_to_bytes.
  replace (Z.of_nat (8 * k) / 8) with (Z.of_nat k)
    by (rewrite Nat2Z.inj_mul, Z.mul_comm, Z.div_mul; lia).
  destruct (le_value le <? 0) eqn:E1; [apply Z.ltb_lt in E1; lia|].
  destruct (Z.of_nat k <? 0) eqn:E2; [apply Z.ltb_lt in E2; lia|].
  destruct (256 ^ Z.of_nat k <=? le_value le) eqn:E3;
    [apply Z.leb_le in E3; lia|].
  rewrite Nat2Z.id, <- Hlen, le_digits_le_value. exact Hle.
Qed.

(** ** Byte order validation *)

(** C9 (defect of the code).  [resize] does not validate its order: the
    order string ["middle"] is accepted and read as little endian. *)
Theorem resize_accepts_invalid_order :
  valid_order "middle" = false /\
  resize "big" [xd2; x01] 1 (Some "middle") = [xd2] /\
  from_int "big" 1 0 (Some "middle") = order_error.
Proof. repeat split. Qed.

(** Any order string other than ["big"] is the little-endian branch of
    [resize]. *)
Lemma resize_other_order (dflt : string) (array : bytes) (size : Z) (o : string) :
  o <> EmptyString -> o <> "big" ->
  resize dflt array size (Some o) = resize dflt array size (Some "little").
Proof.
  intros H1 H2. unfold resize, order_or_default.
  apply String.eqb_neq in H1, H2. rewrite H1, H2. reflexivity.
Qed.

(** ** KNX addresses *)

Lemma in_range (n : nat) (x : Z) : 0 <= x < Z.of_nat n -> In x (range n).
Proof.
  intros H. unfold range. replace x with (Z.of_nat (Z.to_nat x)) by lia.
  apply in_map, in_seq. lia.
Qed.

Lemma group_first_byte_table :
  forallb (fun x => forallb (group_first_byte_ok x) (range 100)) (range 100)
  = true.
Proof. vm_compute. reflexivity. Qed.

Lemma group_first_byte (x y : Z) :
  0 <= x < 100 -> 0 <= y < 100 ->
  knx_first_byte "big" 5 x y = Ok [byte_of_Z ((x mod 32) * 8 + y mod 8)].
Proof.
  intros Hx Hy.
  pose proof group_first_byte_table as T.
  rewrite forallb_forall in T.
  specialize (T x (in_range 100 x Hx)).
  rewrite forallb_forall in T.
  specialize (T y (in_range 100 y Hy)).
  unfold group_first_byte_ok in T.
  destruct (knx_first_byte "big" 5 x y) as [[|b [|]]|]; try discriminate.
  apply Byte.byte_dec_bl in T. now subst.
Qed.

Lemma group_parts (b1 b2 : byte) :
  to_knx_parts "big" [b1; b2] true
  = Ok (Some (Z.shiftr (Z_of_byte b1) 3, Z.land (Z_of_byte b1) 7, Z_of_byte b2)).
Proof.
  assert (Hz : to_int "big" (slice_from 1 [b1; b2]) None = Ok (Z_of_byte b2)).
  { change (to_int "big" (slice_from 1 [b1; b2]) None)
      with (Ok (Z_of_byte b2 + 256 * 0)).
    now rewrite Z.add_0_r. }
  unfold to_knx_parts.
  change (Z.of_nat (List.length [b1; b2]) =? 0) with false. cbv iota.
  rewrite Hz. destruct b1; reflexivity.
Qed.

Lemma is_digit_value (c : ascii) :
  is_digit c = true -> 0 <= Z.of_nat (nat_of_ascii c) - 48 <= 9.
Proof.
  unfold is_digit. intros H. apply andb_true_iff in H. destruct H as [H1 H2].
  apply Nat.leb_le in H1, H2. lia.
Qed.

Lemma digits_two_bound (s d r : string) :
  digits 2 s = (d, r) -> 0 <= int_of_digits d < 100.
Proof.
  unfold int_of_digits.
  destruct s as [|c1 s]; cbn [digits].
  - intros H. injection H as <- _. cbn. lia.
  - destruct (is_digit c1) eqn:E1.
    + pose proof (is_digit_value c1 E1) as V1.
      destruct s as [|c2 s]; cbn [digits].
      * intros H. injection H as <- _. cbn [list_ascii_of_string fold_left]. lia.
      * destruct (is_digit c2) eqn:E2.
        -- pose proof (is_digit_value c2 E2) as V2.
           intros H. injection H as <- _.
           cbn [list_ascii_of_string fold_left]. lia.
        -- intros H. injection H as <- _.
           cbn [list_ascii_of_string fold_left]. lia.
    + intros H. injection H as <- _. cbn. lia.
Qed.

Lemma match_address_bounds (sep : ascii) (address xs ys zs : string) :
  match_address sep address = Some (xs, ys, zs) ->
  0 <= int_of_digits xs < 100 /\ 0 <= int_of_digits ys < 100.
Proof.
  unfold match_address.
  destruct (digits 2 address) as [x r] eqn:Ex.
  destruct (x =s EmptyString); [discriminate|].
  destruct (expect sep r) as [r1|]; [|discriminate].
  destruct (digits 2 r1) as [y r2] eqn:Ey.
  destruct (y =s EmptyString); [discriminate|].
  destruct (expect sep r2) as [r3|]; [|discriminate].
  destruct (digits 3 r3) as [z r4].
  destruct (z =s EmptyString); [discriminate|].
  intros H. injection H as <- <- <-.
  split; [exact (digits_two_bound _ _ _ Ex) | exact (digits_two_bound _ _ _ Ey)].
Qed.

(** The layout of a group address in the code: [to_knx] reads X from the
    first five bits of the first byte, Y from its last three bits and Z from
    the second byte; on an ASCII address [from_knx] packs X into five bits
    and Y into three, in one byte, and the bytes of Z follow, one byte when
    Z is at most 255. *)
Lemma knx_group_layout :
  (forall b1 b2 : byte,
     to_knx_parts "big" [b1; b2] true
     = Ok (Some (Z.shiftr (Z_of_byte b1) 3, Z.land (Z_of_byte b1) 7,
                 Z_of_byte b2))) /\
  (forall address xs ys zs,
     is_ascii address = true ->
     match_address "." address = None ->
     match_address "/" address = Some (xs, ys, zs) ->
     from_knx "big" address
     = (do b2 <- from_int "big" (int_of_digits zs) 0 None;
        Ok (Some (byte_of_Z ((int_of_digits xs mod 32) * 8
                             + int_of_digits ys mod 8) :: b2)))).
Proof.
  split; [exact group_parts|].
  intros address xs ys zs _ H1 H2. unfold from_knx. rewrite H1, H2.
  destruct (match_address_bounds _ _ _ _ _ H2) as [Hx Hy].
  unfold knx_pack. rewrite group_first_byte by assumption. cbn [bind app].
  destruct (from_int "big" (int_of_digits zs) 0 None); reflexivity.
Qed.

(** The layout at the address 31/7/9 and at the bytes FF 09. *)
Lemma knx_group_layout_example :
  to_knx_parts "big" [xff; x09] true = Ok (Some (31, 7, 9)) /\
  from_knx "big" "31/7/9" = Ok (Some [xff; x09]).
Proof.
  destruct knx_group_layout as (Hparts & Hfrom).
  split; [exact (Hparts xff x09)|].
  rewrite (Hfrom "31/7/9" "31" "7" "9" eq_refl eq_refl eq_refl). reflexivity.
Defined.

(** C4 (defect of the code).  The documentation of [to_knx] gives X six bits
    of the first byte in a group address; the code reads five and packs
    five.  The byte 04 has 1 in its first six bits and [to_knx] reads X = 0
    from it (and Y = 4); the address 32/0/0, whose X fits on six bits, is
    packed by [from_knx] into the bytes 00 00, and read back as 0/0/0. *)
Theorem knx_group_five_bits :
  Z.shiftr (Z_of_byte x04) 2 = 1 /\
  to_knx "big" [x04; x00] true = Ok (Some "0/4/0") /\
  from_knx "big" "32/0/0" = Ok (Some [x00; x00]) /\
  to_knx "big" [x00; x00] true = Ok (Some "0/0/0").
Proof. repeat split. Qed.

End ByteCodecProofs.

(** * Properties of the block builder *)

Module OpcuaProofs.
Import Opcua.
Import Opcua.Samples.

(** ** Lengths and serialization *)

Lemma item_len_bytes : forall i, item_len i = List.length (item_bytes i).
Proof.
  fix IH 1. intros [f | name content].
  - reflexivity.
  - change (list_sum (map item_len content)
            = List.length (flat_map item_bytes content)).
    induction content as [|i rest IHc]; cbn [map list_sum flat_map].
    + reflexivity.
    + rewrite length_app, <- IH, <- IHc. reflexivity.
Qed.

Lemma firstn_add_skipn {A : Type} (a b : nat) (l : list A) :
  firstn (a + b) l = firstn a l ++ firstn b (skipn a l).
Proof.
  revert l. induction a as [|a IH]; intros l; cbn [Nat.add firstn skipn app].
  - reflexivity.
  - destruct l as [|x l]; cbn [firstn skipn app].
    + now rewrite firstn_nil.
    + now rewrite IH.
Qed.

(** ** The factory *)

Lemma factory_field_slice make_block template size value content parent :
  it_type template = Some "field" ->
  it_size template = Some size ->
  (size <= List.length value)%nat ->
  exists f,
    factory make_block template (loop_kwargs [] value content parent)
    = Ok (Field f) /\ f_value f = firstn size value.
Proof.
  intros Ht Hs Hle. unfold factory. rewrite Ht.
  cbn [String.eqb Ascii.eqb Bool.eqb loop_kwargs kw_defaults kw_value dict_mem
       dict_get].
  destruct value as [|x value].
  - cbn [bind]. eexists. split; [reflexivity|].
    unfold new_field. rewrite Hs. cbn [f_value].
    cbn [List.length] in Hle. assert (size = O) by lia. subst. reflexivity.
  - rewrite Hs. cbn [bind]. eexists. split; [reflexivity|].
    unfold new_field. rewrite Hs. cbn [f_value].
    destruct (size =? 0)%nat eqn:E.
    + apply Nat.eqb_eq in E. subst. reflexivity.
    + rewrite firstn_firstn. now rewrite Nat.min_id.
Qed.

(** C3 (defect of the code).  For a field item whose name is a key of the
    defaults, the factory reads the undefined name [template] and raises
    [NameError]; no field is built. *)
Theorem factory_defaults_name_error :
  factory (OpcuaBlock_init sample_spec 1)
    (field_item "protocol_version" 4)
    {| kw_name := None;
       kw_type := None;
       kw_item_template_block := None;
       kw_defaults := Some [("protocol_version", PBytes [x00; x00; x00; x01])];
       kw_value := None;
       kw_parent := [] |}
  = Raise (NameError "template").
Proof. reflexivity. Qed.

(** The same on every field item and every defaults dictionary. *)
Lemma factory_defaults_raises make_block template kw defaults :
  it_type template = Some "field" ->
  kw_defaults kw = Some defaults ->
  dict_mem defaults (it_name template) = true ->
  factory make_block template kw = Raise (NameError "template").
Proof.
  intros Ht Hd Hm. unfold factory. rewrite Ht, Hd, Hm. reflexivity.
Qed.

(** ** The loop over the item templates *)

Section Loop.

Variable make_block : kwargs -> result OpcuaBlock.
Variable block_size : string -> option nat.

(** What the loop needs of the constructor of nested blocks. *)
Hypothesis make_block_parses :
  forall block_type L kw value,
    block_size block_type = Some L ->
    given_block_type kw = Some block_type ->
    kw_defaults kw = Some [] ->
    kw_value kw = Some value ->
    (L <= List.length value)%nat ->
    exists b, make_block kw = Ok b /\ block_bytes b = firstn L value.

Lemma factory_parses template size value content parent :
  item_declared_size block_size template = Some size ->
  (size <= List.length value)%nat ->
  exists new_item,
    factory make_block template (loop_kwargs [] value content parent)
    = Ok new_item /\ item_bytes new_item = firstn size value.
Proof.
  intros Hs Hle. unfold item_declared_size in Hs.
  destruct (it_type template) as [t|] eqn:Ht; [|discriminate].
  destruct (t =s "field") eqn:Ef.
  - apply String.eqb_eq in Ef. subst t.
    destruct (factory_field_slice make_block template size value content parent
                Ht Hs Hle) as (f & Hf & Hv).
    exists (Field f). split; [exact Hf | exact Hv].
  - unfold factory. rewrite Ht, Ef.
    edestruct (make_block_parses t size) as (b & Hb & Hbytes);
      [exact Hs | | | | exact Hle | ].
    4:{ rewrite Hb. cbn [bind]. eexists. split; [reflexivity | exact Hbytes]. }
    + unfold given_block_type. cbn. exact Ht.
    + reflexivity.
    + reflexivity.
Qed.

Lemma build_items_parses block_template :
  forall L value content parent,
    template_declared_size block_size block_template = Some L ->
    (L <= List.length value)%nat ->
    exists content',
      build_items make_block block_template [] value parent content
      = Ok content' /\
      flat_map item_bytes content'
      = flat_map item_bytes content ++ firstn L value.
Proof.
  induction block_template as [|template rest IH];
    intros L value content parent HL Hle; cbn [template_declared_size] in HL.
  - injection HL as <-. exists content. split; [reflexivity|].
    cbn [firstn]. now rewrite app_nil_r.
  - destruct (item_declared_size block_size template) as [a|] eqn:Ha;
      [|discriminate].
    destruct (template_declared_size block_size rest) as [b|] eqn:Hb;
      [|discriminate].
    injection HL as <-.
    destruct (factory_parses template a value content parent Ha ltac:(lia))
      as (new_item & Hnew & Hbytes).
    assert (Hlen : item_len new_item = a).
    { rewrite item_len_bytes, Hbytes, length_firstn. lia. }
    cbn [build_items].
    rewrite Hnew. cbn [bind].
    destruct value as [|x value].
    + destruct (IH b [] (content ++ [new_item]) parent eq_refl ltac:(lia))
        as (content' & Hc & Hf).
      exists content'. split; [exact Hc|].
      rewrite Hf, flat_map_app, !firstn_nil. cbn [flat_map].
      rewrite Hbytes, firstn_nil, !app_nil_r. reflexivity.
    + rewrite Hlen.
      destruct (List.length (x :: value) <=? a)%nat eqn:E.
      * apply Nat.leb_le in E. assert (b = O) by lia. subst b.
        exists (content ++ [new_item]). split; [reflexivity|].
        rewrite flat_map_app. cbn [flat_map]. rewrite Hbytes, app_nil_r.
        now rewrite Nat.add_0_r.
      * apply Nat.leb_gt in E.
        destruct (IH b (skipn a (x :: value)) (content ++ [new_item]) parent eq_refl)
          as (content' & Hc & Hf).
        { rewrite length_skipn. lia. }
        exists content'. split; [exact Hc|].
        rewrite Hf, flat_map_app. cbn [flat_map].
        rewrite Hbytes, app_nil_r, firstn_add_skipn, app_assoc. reflexivity.
Qed.

End Loop.

(** ** Parsing and serializing *)

Lemma declared_size_unfold spec depth block_type L :
  declared_size spec depth block_type = Some L ->
  String.prefix "depends:" block_type = false /\
  exists block_template,
    block_template <> [] /\
    get_block_template spec (Some block_type) = Some block_template /\
    template_declared_size
      (match depth with
       | O => fun _ => None
       | S d => declared_size spec d
       end) block_template = Some L.
Proof.
  intros H. destruct depth; cbn [declared_size] in H.
  all: destruct (String.prefix "depends:" block_type); [discriminate|].
  all: split; [reflexivity|].
  all: destruct (get_block_template spec (Some block_type)) as [[|t r]|];
    try discriminate.
  all: exists (t :: r); repeat split; try exact H; discriminate.
Qed.

Lemma OpcuaBlock_init_unfold spec depth kw :
  OpcuaBlock_init spec depth kw
  = init_body spec
      (match depth with
       | O => fun _ => Raise RecursionError
       | S d => OpcuaBlock_init spec d
       end) kw.
Proof. destruct depth; reflexivity. Qed.

Lemma OpcuaBlock_init_parses spec depth :
  forall block_type L kw,
    declared_size spec depth block_type = Some L ->
    given_block_type kw = Some block_type ->
    defaults_of kw = [] ->
    (L <= List.length (value_of kw))%nat ->
    exists b,
      OpcuaBlock_init spec depth kw = Ok b /\
      block_bytes b = firstn L (value_of kw).
Proof.
  induction depth as [|d IH]; intros block_type L kw HL Hty Hd Hle.
  all: apply declared_size_unfold in HL;
    destruct HL as (Hp & block_template & Hne & Hget & HL).
  all: rewrite OpcuaBlock_init_unfold; unfold init_body.
  all: rewrite Hty, Hd; unfold resolve_block_type; rewrite Hp; cbn [bind].
  all: unfold build_block; rewrite Hget.
  all: destruct block_template as [|t r]; [congruence|].
  - destruct (build_items_parses (fun _ => Raise RecursionError)
                (fun _ => None) ltac:(discriminate) (t :: r) L (value_of kw) []
                (kw_parent kw) HL Hle) as (content & Hc & Hf).
    rewrite Hc. cbn [bind]. eexists. split; [reflexivity|].
    unfold block_bytes. cbn [as_item item_bytes b_content b_name]. exact Hf.
  - destruct (build_items_parses (OpcuaBlock_init spec d)
                (declared_size spec d)) with
      (block_template := t :: r) (L := L) (value := value_of kw)
      (content := @nil item) (parent := kw_parent kw)
      as (content & Hc & Hf); [|exact HL|exact Hle|].
    + intros bt L' kw' value' Hs Hg Hd' Hv' Hle'.
      destruct (IH bt L' kw' Hs Hg) as (b & Hb & Hbytes).
      * unfold defaults_of. now rewrite Hd'.
      * unfold value_of. now rewrite Hv'.
      * exists b. split; [exact Hb|]. rewrite Hbytes. unfold value_of.
        now rewrite Hv'.
    + rewrite Hc. cbn [bind]. eexists. split; [reflexivity|].
      unfold block_bytes. cbn [as_item item_bytes b_content b_name]. exact Hf.
Qed.

(** C1, as the code has it.  For a block type whose template is not empty
    and is made of sized fields and of nested blocks of such types, with a
    total declared size [L], and for a buffer of length [L], the block built
    from the buffer serializes to the buffer. *)
Theorem parse_serialize_round_trip spec depth block_type L kw buffer :
  declared_size spec depth block_type = Some L ->
  List.length buffer = L ->
  given_block_type kw = Some block_type ->
  kw_defaults kw = None ->
  kw_value kw = Some buffer ->
  exists b,
    OpcuaBlock_init spec depth kw = Ok b /\ block_bytes b = buffer.
Proof.
  intros HL Hlen Hty Hd Hv.
  destruct (OpcuaBlock_init_parses spec depth block_type L kw HL)
    as (b & Hb & Hbytes).
  - exact Hty.
  - unfold defaults_of. now rewrite Hd.
  - unfold value_of. rewrite Hv. lia.
  - exists b. split; [exact Hb|]. rewrite Hbytes. unfold value_of. rewrite Hv.
    apply firstn_all2. lia.
Qed.

(** The round trip on a message of ten bytes: a header block and a body
    block, nested. *)
Lemma parse_serialize_round_trip_witness :
  exists b,
    OpcuaBlock_init sample_spec 2
      (parse_kwargs "MESSAGE" [x48; x45; x4c; x46; x00; x00; x00; x01; x12; x68])
    = Ok b /\
    block_bytes b = [x48; x45; x4c; x46; x00; x00; x00; x01; x12; x68].
Proof.
  apply (parse_serialize_round_trip sample_spec 2 "MESSAGE" 10);
    reflexivity.
Defined.

(** C1, as the claim states it, fails on a template without items: its
    declared sizes total 0, the buffer of length 0 matches it, and the
    construction raises. *)
Lemma empty_template_counterexample :
  get_block_template sample_spec (Some "EMPTY") = Some [] /\
  template_declared_size (fun _ => None) [] = Some O /\
  ~ (exists b,
       OpcuaBlock_init sample_spec 2 (parse_kwargs "EMPTY" []) = Ok b /\
       block_bytes b = []).
Proof.
  repeat split. intros (b & H & _). discriminate H.
Qed.

(** ** An exhausted buffer *)





(** ** Dependencies *)

(** C8.  With the type [depends:message_type] and defaults that give
    ["HEL"] for [message_type], the type of the block is resolved as
    [get_code_name "message_type" "HEL"] resolves it, and the name of the
    block built is that type. *)
Theorem depends_message_type_resolution spec depth kw defaults :
  given_block_type kw = Some "depends:message_type" ->
  kw_defaults kw = Some defaults ->
  dict_get defaults "message_type" = Some (PStr "HEL") ->
  resolve_block_type spec defaults (kw_parent kw) "depends:message_type"
  = get_code_name spec "message_type" (PStr "HEL") /\
  OpcuaBlock_init spec depth kw
  = (do block_type <- get_code_name spec "message_type" (PStr "HEL");
     build_block spec
       (match depth with
        | O => fun _ => Raise RecursionError
        | S d => OpcuaBlock_init spec d
        end) defaults (value_of kw) (kw_parent kw) block_type) /\
  (forall b,
     OpcuaBlock_init spec depth kw = Ok b ->
     get_code_name spec "message_type" (PStr "HEL") = Ok (Some (b_name b))).
Proof.
  intros Hty Hd Hget.
  assert (Hres : resolve_block_type spec defaults (kw_parent kw)
                   "depends:message_type"
                 = get_code_name spec "message_type" (PStr "HEL")).
  { unfold resolve_block_type.
    change (String.prefix "depends:" "depends:message_type") with true.
    change (nth 1 (split_colon "depends:message_type") EmptyString)
      with "message_type".
    cbv iota zeta. now rewrite Hget. }
  assert (Hinit : OpcuaBlock_init spec depth kw
    = (do block_type <- get_code_name spec "message_type" (PStr "HEL");
       build_block spec
         (match depth with
          | O => fun _ => Raise RecursionError
          | S d => OpcuaBlock_init spec d
          end) defaults (value_of kw) (kw_parent kw) block_type)).
  { rewrite OpcuaBlock_init_unfold. unfold init_body, defaults_of.
    rewrite Hty, Hd, Hres. reflexivity. }
  split; [exact Hres|]. split; [exact Hinit|].
  intros b Hb. rewrite Hinit in Hb.
  destruct (get_code_name spec "message_type" (PStr "HEL")) as [bt|e];
    [|discriminate].
  cbn [bind] in Hb. unfold build_block in Hb.
  destruct bt as [name|]; [|discriminate].
  destruct (get_block_template spec (Some name)) as [[|t r]|];
    try discriminate.
  destruct (build_items _ _ _ _ _ _); [|discriminate].
  cbn [bind] in Hb. injection Hb as <-. reflexivity.
Qed.

(** The resolution on the sample specification: the block built is the body
    of a HEL message. *)
Lemma depends_message_type_resolution_witness :
  get_code_name sample_spec "message_type" (PStr "HEL") = Ok (Some "HEL_BODY") /\
  exists b,
    OpcuaBlock_init sample_spec 1
      (defaults_kwargs "depends:message_type" [("message_type", PStr "HEL")])
    = Ok b /\
    get_code_name sample_spec "message_type" (PStr "HEL") = Ok (Some (b_name b)).
Proof.
  split; [reflexivity|].
  eexists. split; [reflexivity|].
  apply (depends_message_type_resolution sample_spec 1
           (defaults_kwargs "depends:message_type"
              [("message_type", PStr "HEL")])
           [("message_type", PStr "HEL")] eq_refl eq_refl eq_refl).
  reflexivity.
Defined.

(** ** Blocks without a type *)

(** C10.  Without the keyword [type] and without an item template that has
    a type, the construction succeeds and the block has no child. *)
Theorem untyped_block_is_empty spec depth kw :
  kw_type kw = None ->
  (forall template,
     kw_item_template_block kw = Some template -> it_type template = None) ->
  exists b, OpcuaBlock_init spec depth kw = Ok b /\ b_content b = [].
Proof.
  intros Hty Htemplate.
  rewrite OpcuaBlock_init_unfold. unfold init_body, given_block_type.
  rewrite Hty.
  destruct (kw_item_template_block kw) as [template|].
  - rewrite (Htemplate template eq_refl). eexists. split; reflexivity.
  - eexists. split; reflexivity.
Qed.

(** The block built without any keyword argument. *)
Lemma untyped_block_is_empty_witness :
  exists b, OpcuaBlock_init sample_spec 1 no_kwargs = Ok b /\ b_content b = [].
Proof.
  apply (untyped_block_is_empty sample_spec 1 no_kwargs);
    [reflexivity | discriminate].
Defined.

End OpcuaProofs.

(** * Further properties of the byte codec *)

Module ByteCodecExtra.
Import ByteCodec Addresses ByteCodecProofs.

(** ** Sizes *)

(** X1.  [resize] to a size that is not negative returns exactly that many
    bytes, whatever the array, the order string and the default order. *)
Theorem resize_length (dflt : string) (array : bytes) (size : Z)
  (byteorder : option string) :
  0 <= size ->
  List.length (resize dflt array size byteorder) = Z.to_nat size.
Proof.
  intros Hsize. unfold resize.
  destruct (size <? Z.of_nat (List.length array)) eqn:E1.
  - apply Z.ltb_lt in E1. unfold slice_from, slice_to.
    destruct (Z.of_nat (List.length array) - size <? 0) eqn:E2;
      [apply Z.ltb_lt in E2; lia|].
    destruct (size <? 0) eqn:E3; [apply Z.ltb_lt in E3; lia|].
    destruct (order_or_default byteorder dflt =s "big").
    + rewrite length_skipn. lia.
    + rewrite length_firstn. lia.
  - apply Z.ltb_ge in E1.
    destruct (size >? Z.of_nat (List.length array)) eqn:E2.
    + destruct (order_or_default byteorder dflt =s "big");
        rewrite length_app, repeat_length; lia.
    + rewrite Z.gtb_ltb in E2. apply Z.ltb_ge in E2. lia.
Qed.

Lemma resize_length_witness :
  List.length (resize "big" [x01; x02; x03] 2 (Some "sideways")) = 2%nat.
Proof. apply (resize_length "big" [x01; x02; x03] 2 (Some "sideways")). lia. Defined.

(** X2.  With a negative size [resize] does not raise: in big endian the
    result is empty, in little endian the last [-size] bytes are dropped. *)
Theorem resize_negative_size (dflt : string) (array : bytes) (size : Z) :
  size < 0 ->
  resize dflt array size (Some "big") = [] /\
  resize dflt array size (Some "little")
  = firstn (List.length array - Z.to_nat (- size)) array.
Proof.
  intros Hneg. unfold resize.
  assert (E1 : (size <? Z.of_nat (List.length array)) = true)
    by (apply Z.ltb_lt; lia).
  rewrite E1. cbn [order_or_default String.eqb Ascii.eqb Bool.eqb].
  unfold slice_from, slice_to.
  destruct (Z.of_nat (List.length array) - size <? 0) eqn:E2;
    [apply Z.ltb_lt in E2; lia|].
  assert (E3 : (size <? 0) = true) by (apply Z.ltb_lt; lia).
  rewrite E3. split.
  - apply skipn_all2. lia.
  - f_equal. lia.
Qed.

Lemma resize_negative_size_witness :
  resize "big" [x01; x02; x03] (-1) (Some "big") = [] /\
  resize "big" [x01; x02; x03] (-1) (Some "little") = [x01; x02].
Proof. apply (resize_negative_size "big" [x01; x02; x03] (-1)). lia. Defined.

Lemma bit_length_abs (n : Z) : bit_length (- n) = bit_length n.
Proof.
  unfold bit_length. rewrite Z.abs_opp.
  destruct (n =? 0) eqn:E.
  - apply Z.eqb_eq in E. subst. reflexivity.
  - apply Z.eqb_neq in E.
    destruct (- n =? 0) eqn:E'; [apply Z.eqb_eq in E'; lia | reflexivity].
Qed.

(** The bounds of [get_size] on an integer. *)
Lemma get_size_int_bounds (n : Z) :
  (0 < n -> 256 ^ (get_size_int n - 1) <= n < 256 ^ get_size_int n) /\
  get_size_int 0 = 0 /\
  get_size_int (- n) = get_size_int n.
Proof.
  split; [|split; [reflexivity | unfold get_size_int; now rewrite bit_length_abs]].
  intros Hn. split; [|apply get_size_int_fits; lia].
  unfold get_size_int, bit_length.
  destruct (n =? 0) eqn:E; [apply Z.eqb_eq in E; lia|].
  rewrite Z.abs_eq by lia.
  pose proof (Z.log2_spec n Hn) as [Hlow _].
  pose proof (Z.log2_nonneg n) as Hl.
  set (l := Z.log2 n) in *.
  pose proof (Z.div_mod (l + 1 + 7) 8 ltac:(lia)) as Hd.
  pose proof (Z.mod_pos_bound (l + 1 + 7) 8 ltac:(lia)) as Hm.
  eapply Z.le_trans; [|exact Hlow].
  change 256 with (2 ^ 8). rewrite <- Z.pow_mul_r by lia.
  apply Z.pow_le_mono_r; lia.
Qed.

(** X3.  [get_size] of a positive integer is the least number of bytes that
    hold it; it is 0 for 0, and the size of a negative integer is the size
    of its absolute value. *)
Theorem get_size_minimal (n : Z) :
  (0 < n -> 256 ^ (get_size_int n - 1) <= n < 256 ^ get_size_int n) /\
  get_size_int 0 = 0 /\
  get_size_int (- n) = get_size_int n.
Proof. exact (get_size_int_bounds n). Qed.

Lemma get_size_minimal_witness :
  256 ^ (get_size_int 65980 - 1) <= 65980 < 256 ^ get_size_int 65980.
Proof. apply (get_size_minimal 65980). lia. Defined.

(** ** Integers and bytes *)

Lemma le_value_le_digits_mod (k : nat) :
  forall n, le_value (le_digits k n) = n mod 256 ^ Z.of_nat k.
Proof.
  induction k as [|k IH]; intros n.
  - cbn [le_digits le_value]. change (256 ^ Z.of_nat 0) with 1.
    now rewrite Z.mod_1_r.
  - cbn [le_digits le_value]. rewrite Z_of_byte_of_Z, IH.
    rewrite Nat2Z.inj_succ, Z.pow_succ_r by lia.
    rewrite Z.rem_mul_r by lia. reflexivity.
Qed.

Lemma le_digits_firstn (s : nat) :
  forall k n, (s <= k)%nat -> firstn s (le_digits k n) = le_digits s n.
Proof.
  induction s as [|s IH]; intros k n Hle; [reflexivity|].
  destruct k as [|k]; [lia|].
  cbn [le_digits firstn]. f_equal. apply IH. lia.
Qed.

Lemma le_digits_zero (m : nat) : le_digits m 0 = repeat x00 m.
Proof. induction m as [|m IH]; [reflexivity|]. cbn [le_digits repeat]. now f_equal. Qed.

Lemma le_digits_pad (k : nat) :
  forall m n, 0 <= n < 256 ^ Z.of_nat k ->
    le_digits (k + m) n = le_digits k n ++ repeat x00 m.
Proof.
  induction k as [|k IH]; intros m n Hn.
  - change (256 ^ Z.of_nat 0) with 1 in Hn. assert (n = 0) by lia. subst.
    apply le_digits_zero.
  - cbn [Nat.add le_digits app]. f_equal. apply IH.
    rewrite Nat2Z.inj_succ, Z.pow_succ_r in Hn by lia.
    split; [apply Z.div_pos; lia | apply Z.div_lt_upper_bound; lia].
Qed.

(** [resize] of the minimal representation is the representation on the
    new number of digits. *)
Lemma resize_digits (dflt : string) (o : string) (k : nat) (n size : Z) :
  valid_order o = true ->
  0 <= n < 256 ^ Z.of_nat k ->
  0 <= size ->
  resize dflt (in_order o (le_digits k n)) size (Some o)
  = in_order o (le_digits (Z.to_nat size) n).
Proof.
  intros Ho Hn Hsize.
  assert (Hlen : List.length (in_order o (le_digits k n)) = k).
  { unfold in_order. rewrite length_order. apply le_digits_length. }
  destruct (Z.lt_trichotomy size (Z.of_nat k)) as [Hlt | [Heq | Hgt]].
  - rewrite resize_truncate by (auto; lia). rewrite Hlen. unfold in_order.
    destruct (valid_order_cases o Ho); subst;
      cbn [String.eqb Ascii.eqb Bool.eqb].
    + rewrite skipn_rev, le_digits_length.
      replace (k - (k - Z.to_nat size))%nat with (Z.to_nat size) by lia.
      rewrite le_digits_firstn by lia. reflexivity.
    + apply le_digits_firstn. lia.
  - replace size with (Z.of_nat (List.length (in_order o (le_digits k n))))
      by lia.
    rewrite resize_same. rewrite Hlen, Nat2Z.id. reflexivity.
  - rewrite resize_pad by (auto; lia). cbv zeta. rewrite Hlen.
    replace (Z.to_nat size) with (k + Z.to_nat (size - Z.of_nat k))%nat by lia.
    rewrite le_digits_pad by assumption. unfold in_order.
    destruct (valid_order_cases o Ho); subst;
      cbn [String.eqb Ascii.eqb Bool.eqb].
    + now rewrite rev_app_distr, rev_repeat.
    + reflexivity.
Qed.

(** The bytes of [from_int] are digits in base 256. *)
Lemma from_int_in_order (dflt : string) (n size : Z) (o : string) :
  valid_order o = true ->
  0 <= n -> 0 <= size ->
  from_int dflt n size (Some o)
  = Ok (in_order o
          (le_digits
             (Z.to_nat (if size =? 0 then Z.max 1 (get_size_int n) else size))
             n)).
Proof.
  intros Ho Hn Hsize.
  pose proof (get_size_int_fits n Hn) as Hfit.
  pose proof (get_size_int_nonneg n) as Hk.
  unfold from_int. rewrite order_or_default_valid by assumption.
  rewrite Ho. cbn [negb].
  unfold int_to_bytes. fold (get_size_int n).
  destruct (n <? 0) eqn:E1; [apply Z.ltb_lt in E1; lia|].
  destruct (get_size_int n <? 0) eqn:E2; [apply Z.ltb_lt in E2; lia|].
  destruct (256 ^ get_size_int n <=? n) eqn:E3; [apply Z.leb_le in E3; lia|].
  cbn [bind]. f_equal.
  set (k := Z.to_nat (get_size_int n)).
  change (if o =s "big" then rev (le_digits k n) else le_digits k n)
    with (in_order o (le_digits k n)).
  assert (Hlen : List.length (in_order o (le_digits k n)) = k).
  { unfold in_order. rewrite length_order. apply le_digits_length. }
  rewrite Hlen.
  assert (Hnk : 0 <= n < 256 ^ Z.of_nat k) by (subst k; rewrite Z2Nat.id; lia).
  assert (Hzk : Z.of_nat k = get_size_int n) by (subst k; lia).
  destruct (size =? 0) eqn:Es.
  - apply Z.eqb_eq in Es. subst size.
    destruct (Z.of_nat k =? 0) eqn:Ek.
    + apply Z.eqb_eq in Ek. change (1 =? 0) with false. cbv iota.
      rewrite resize_digits by (auto; lia). do 2 f_equal. lia.
    + apply Z.eqb_neq in Ek. change (0 =? 0) with true. cbv iota.
      rewrite resize_digits by (auto; lia). do 2 f_equal. lia.
  - assert (Hs : (if Z.of_nat k =? 0 then size else size) = size)
      by (destruct (Z.of_nat k =? 0); reflexivity).
    rewrite Hs, Es. apply resize_digits; auto.
Qed.

(** X4.  For an integer that is not negative, [from_int] returns its digits
    in base 256 in the order asked: as many as [size] when a size is given,
    even if the integer does not fit, and as many as [get_size] says, one at
    least, when no size is given. *)
Theorem from_int_digits (dflt : string) (n size : Z) (o : string) :
  valid_order o = true ->
  0 <= n -> 0 <= size ->
  from_int dflt n size (Some o)
  = Ok (in_order o
          (le_digits
             (Z.to_nat (if size =? 0 then Z.max 1 (get_size_int n) else size))
             n)).
Proof. exact (from_int_in_order dflt n size o). Qed.

Lemma from_int_digits_witness :
  from_int "little" 65980 2 (Some "big") = Ok [x01; xbc].
Proof. apply (from_int_digits "little" 65980 2 "big"); [reflexivity | lia | lia]. Defined.

(** The number of bytes of [from_int]: the size given, or without a
    size the size of the integer, and one byte for 0. *)
Corollary from_int_length (dflt : string) (n size : Z) (o : string) :
  valid_order o = true ->
  0 <= n -> 0 <= size ->
  exists b,
    from_int dflt n size (Some o) = Ok b /\
    Z.of_nat (List.length b)
    = if size =? 0 then Z.max 1 (get_size_int n) else size.
Proof.
  intros Ho Hn Hsize. rewrite from_int_in_order by assumption.
  eexists. split; [reflexivity|].
  unfold in_order. rewrite length_order, le_digits_length.
  pose proof (get_size_int_nonneg n).
  destruct (size =? 0); lia.
Qed.

Lemma from_int_length_witness :
  exists b, from_int "big" 0 0 (Some "little") = Ok b
            /\ Z.of_nat (List.length b) = 1.
Proof. apply (from_int_length "big" 0 0 "little"); [reflexivity | lia | lia]. Defined.

(** X5.  An integer written on [size] bytes and read back is the integer
    modulo [256 ^ size]: a size that is too small drops the high bytes
    without an error, in both orders. *)
Theorem from_int_truncates (dflt : string) (n size : Z) (o : string) :
  valid_order o = true ->
  0 <= n -> 0 < size ->
  (do b <- from_int dflt n size (Some o); to_int dflt b (Some o))
  = Ok (n mod 256 ^ size).
Proof.
  intros Ho Hn Hsize. rewrite from_int_in_order by (auto; lia).
  cbn [bind]. unfold to_int. rewrite order_or_default_valid by assumption.
  rewrite Ho. cbn [negb]. f_equal.
  destruct (size =? 0) eqn:Es; [apply Z.eqb_eq in Es; lia|].
  unfold in_order. rewrite int_from_bytes_digits by assumption.
  rewrite le_value_le_digits_mod. now rewrite Z2Nat.id by lia.
Qed.

Lemma from_int_truncates_witness :
  (do b <- from_int "big" 65980 1 (Some "big"); to_int "big" b (Some "big"))
  = Ok 188.
Proof. apply (from_int_truncates "big" 65980 1 "big"); [reflexivity | lia | lia]. Defined.

(** X6.  [from_int] raises [OverflowError] on a negative integer, whatever
    the size. *)
Theorem from_int_negative (dflt : string) (n size : Z) (o : string) :
  valid_order o = true ->
  n < 0 ->
  from_int dflt n size (Some o) = Raise OverflowError.
Proof.
  intros Ho Hn. unfold from_int. rewrite order_or_default_valid by assumption.
  rewrite Ho. cbn [negb]. unfold int_to_bytes.
  assert (E : (n <? 0) = true) by (apply Z.ltb_lt; lia).
  now rewrite E.
Qed.

Lemma from_int_negative_witness :
  from_int "big" (-1) 4 (Some "little") = Raise OverflowError.
Proof. apply (from_int_negative "big" (-1) 4 "little"); [reflexivity | lia]. Defined.

Lemma in_order_involutive (o : string) (b : bytes) :
  in_order o (in_order o b) = b.
Proof. unfold in_order. destruct (o =s "big"); [apply rev_involutive | reflexivity]. Qed.

Lemma int_from_bytes_in_order (o : string) (b : bytes) :
  int_from_bytes b o = le_value (in_order o b).
Proof. unfold int_from_bytes, in_order. now destruct (o =s "big"). Qed.

Lemma in_order_length (o : string) (b : bytes) :
  List.length (in_order o b) = List.length b.
Proof. apply length_order. Qed.

(** X7.  Bytes read as an integer and written back on their own length are
    the same bytes, unless there is no byte at all: the empty array comes
    back as one zero byte.  [to_int] does not raise and its result is below
    [256 ^ len(array)]. *)
Theorem to_int_from_int (dflt : string) (array : bytes) (o : string) :
  valid_order o = true ->
  exists n,
    to_int dflt array (Some o) = Ok n /\
    0 <= n < 256 ^ Z.of_nat (List.length array) /\
    from_int dflt n (Z.of_nat (List.length array)) (Some o)
    = Ok (match array with [] => [x00] | _ => array end).
Proof.
  intros Ho. unfold to_int. rewrite order_or_default_valid by assumption.
  rewrite Ho. cbn [negb]. eexists. split; [reflexivity|].
  rewrite int_from_bytes_in_order.
  pose proof (le_value_range (in_order o array)) as Hr.
  rewrite in_order_length in Hr. split; [exact Hr|].
  rewrite from_int_in_order by (auto; lia).
  destruct array as [|x array].
  - unfold in_order. cbn [rev le_value]. cbn.
    destruct (o =s "big"); reflexivity.
  - destruct (Z.of_nat (List.length (x :: array)) =? 0) eqn:E;
      [apply Z.eqb_eq in E; cbn [List.length] in E; lia|].
    rewrite Nat2Z.id, <- (in_order_length o), le_digits_le_value.
    now rewrite in_order_involutive.
Qed.

Lemma to_int_from_int_witness :
  exists n,
    to_int "big" [x01; x01; xbc] (Some "big") = Ok n /\
    0 <= n < 256 ^ 3 /\
    from_int "big" n 3 (Some "big") = Ok [x01; x01; xbc].
Proof. apply (to_int_from_int "big" [x01; x01; xbc] "big"). reflexivity. Defined.

(** ** Byte order arguments *)

(** X8.  Every conversion that checks its order raises
    [BOFProgrammingError] on an order string that is neither ["big"] nor
    ["little"] nor empty, before it looks at its other arguments. *)
Theorem invalid_order_raises (dflt o : string) :
  o <> EmptyString -> valid_order o = false ->
  set_byteorder o = order_error /\
  (forall value size, from_int dflt value size (Some o) = order_error) /\
  (forall array, to_int dflt array (Some o) = order_error) /\
  (forall n size, int_to_bit_list dflt n size (Some o) = order_error) /\
  (forall t, bit_list_to_int dflt t (Some o) = order_error) /\
  (forall value, to_bit_list dflt value (Some o) = order_error) /\
  (forall bits, from_bit_list dflt bits (Some o) = order_error).
Proof.
  intros Hne Hinv.
  assert (Hd : order_or_default (Some o) dflt = o).
  { unfold order_or_default. apply String.eqb_neq in Hne. now rewrite Hne. }
  unfold set_byteorder, from_int, to_int, int_to_bit_list, bit_list_to_int,
    to_bit_list, from_bit_list.
  rewrite Hd, Hinv. cbn [negb]. repeat split.
Qed.

Lemma invalid_order_raises_witness :
  from_bit_list "big" [1; 0; 0; 0; 0; 0; 0; 0] (Some "BIG") = order_error.
Proof.
  destruct (invalid_order_raises "big" "BIG" ltac:(discriminate) eq_refl)
    as (_ & _ & _ & _ & _ & _ & H).
  apply H.
Defined.

(** An order given as the empty string is not an error: it is read as
    no order at all and the default order is used, as with [None]. *)
Remark empty_order_is_default (dflt : string) :
  (forall value size,
     from_int dflt value size (Some EmptyString) = from_int dflt value size None) /\
  (forall array,
     to_int dflt array (Some EmptyString) = to_int dflt array None) /\
  (forall array size,
     resize dflt array size (Some EmptyString) = resize dflt array size None) /\
  (forall value,
     to_bit_list dflt value (Some EmptyString) = to_bit_list dflt value None) /\
  (forall bits,
     from_bit_list dflt bits (Some EmptyString) = from_bit_list dflt bits None).
Proof. repeat split. Qed.

(** ** Bit lists *)

Lemma shift_in_low_bits_mod (k : nat) :
  forall n, shift_in (rev (low_bits k n)) = n mod 2 ^ Z.of_nat k.
Proof.
  induction k as [|k IH]; intros n.
  - cbn [low_bits rev]. change (2 ^ Z.of_nat 0) with 1. now rewrite Z.mod_1_r.
  - cbn [low_bits rev]. rewrite shift_in_snoc.
    rewrite Z.shiftr_div_pow2 by lia. change (2 ^ 1) with 2.
    rewrite IH.
    change 1 with (Z.ones 1) at 1. rewrite Z.land_ones by lia.
    change (2 ^ 1) with 2.
    rewrite Nat2Z.inj_succ, Z.pow_succ_r by lia.
    rewrite Z.rem_mul_r by lia. lia.
Qed.

Lemma low_bits_are_bits (k : nat) : forall n, Forall is_bit (low_bits k n).
Proof.
  induction k as [|k IH]; intros n; cbn [low_bits]; constructor; [|apply IH].
  change 1 with (Z.ones 1). rewrite Z.land_ones by lia. change (2 ^ 1) with 2.
  pose proof (Z.mod_pos_bound n 2 ltac:(lia)). unfold is_bit. lia.
Qed.

(** X9.  [int_to_bit_list] returns [size] bits, each 0 or 1, and
    [bit_list_to_int] in the same order reads them back as the integer
    modulo [2 ^ size]: the integer itself when it fits, its two's complement
    on [size] bits when it is negative. *)
Theorem int_bit_list_round_trip (dflt : string) (n size : Z) (o : string) :
  valid_order o = true ->
  0 <= size ->
  exists t,
    int_to_bit_list dflt n size (Some o) = Ok t /\
    Z.of_nat (List.length t) = size /\
    Forall is_bit t /\
    bit_list_to_int dflt t (Some o) = Ok (n mod 2 ^ size).
Proof.
  intros Ho Hsize. unfold int_to_bit_list, bit_list_to_int.
  rewrite order_or_default_valid by assumption. rewrite Ho. cbn [negb].
  eexists. split; [reflexivity|].
  destruct (valid_order_cases o Ho); subst; cbn [String.eqb Ascii.eqb Bool.eqb negb].
  - rewrite length_rev, low_bits_length. split; [lia|]. split.
    + apply Forall_rev, low_bits_are_bits.
    + rewrite shift_in_low_bits_mod. now rewrite Z2Nat.id by lia.
  - rewrite low_bits_length. split; [lia|]. split.
    + apply low_bits_are_bits.
    + rewrite shift_in_low_bits_mod. now rewrite Z2Nat.id by lia.
Qed.

Lemma int_bit_list_round_trip_witness :
  exists t,
    int_to_bit_list "big" (-1) 4 (Some "little") = Ok t /\
    Z.of_nat (List.length t) = 4 /\
    Forall is_bit t /\
    bit_list_to_int "big" t (Some "little") = Ok 15.
Proof.
  apply (int_bit_list_round_trip "big" (-1) 4 "little"); [reflexivity | lia].
Defined.

(** X10.  When the order given is the default order, or when no order is
    given, bytes turned into a list of bits and back are the same bytes. *)
Theorem bit_list_round_trip_default (dflt : string) (b : bytes) (o : option string) :
  valid_order dflt = true ->
  o = None \/ o = Some dflt ->
  (do bits <- to_bit_list dflt b o; from_bit_list dflt bits o) = Ok b.
Proof.
  intros Hd Ho.
  pose proof (bit_list_round_trip_same_default dflt b Hd) as H.
  destruct Ho as [-> | ->]; [|exact H].
  unfold to_bit_list, from_bit_list in *.
  rewrite order_or_default_valid in H by assumption.
  exact H.
Qed.

Lemma bit_list_round_trip_default_witness :
  (do bits <- to_bit_list "little" [x01; x80] None;
   from_bit_list "little" bits None) = Ok [x01; x80].
Proof.
  apply (bit_list_round_trip_default "little" [x01; x80] None);
    [reflexivity | now left].
Defined.

Lemma shift_in_bits_range (t : list Z) :
  Forall is_bit t -> 0 <= shift_in t < 2 ^ Z.of_nat (List.length t).
Proof.
  induction t as [|b t IH] using rev_ind; intros Hall.
  - cbn. lia.
  - apply Forall_app in Hall. destruct Hall as [Ht Hb].
    inversion Hb as [|? ? Hbit _]; subst.
    rewrite shift_in_snoc, length_app. cbn [List.length].
    rewrite Nat2Z.inj_add. change (Z.of_nat 1) with 1.
    rewrite Z.pow_add_r by lia. change (2 ^ 1) with 2.
    specialize (IH Ht). unfold is_bit in Hbit. lia.
Qed.

Lemma low_bits_shift_in (t : list Z) :
  Forall is_bit t -> low_bits (List.length t) (shift_in t) = rev t.
Proof.
  induction t as [|b t IH] using rev_ind; intros Hall; [reflexivity|].
  apply Forall_app in Hall. destruct Hall as [Ht Hb].
  inversion Hb as [|? ? Hbit _]; subst.
  rewrite shift_in_snoc, length_app, rev_app_distr.
  replace (List.length t + List.length [b])%nat with (S (List.length t))
    by (cbn [List.length]; lia).
  cbn [low_bits rev app].
  change 1 with (Z.ones 1) at 1. rewrite Z.land_ones by lia.
  rewrite Z.shiftr_div_pow2 by lia. change (2 ^ 1) with 2.
  assert (Hm : (2 * shift_in t + b) mod 2 = b).
  { rewrite Z.add_comm, Z.mul_comm, Z.mod_add by lia.
    unfold is_bit in Hbit. destruct Hbit; subst; reflexivity. }
  assert (Hq : (2 * shift_in t + b) / 2 = shift_in t).
  { rewrite Z.add_comm, Z.mul_comm, Z.div_add by lia.
    unfold is_bit in Hbit. destruct Hbit; subst; cbn; lia. }
  rewrite Hm, Hq, IH by assumption. reflexivity.
Qed.

(** X11.  A list of bits whose length is a multiple of 8 is turned into
    [len(bits) / 8] bytes without an error, and these bytes turned back into a
    list of bits are the same list, when the order is the default order. *)
Theorem from_bit_list_round_trip (o : string) (bits : list Z) :
  valid_order o = true ->
  Forall is_bit bits ->
  Z.of_nat (List.length bits) mod 8 = 0 ->
  exists b,
    from_bit_list o bits (Some o) = Ok b /\
    Z.of_nat (List.length b) = Z.of_nat (List.length bits) / 8 /\
    to_bit_list o b (Some o) = Ok bits.
Proof.
  intros Ho Hbits Hlen.
  set (msb := if negb (o =s "big") then rev bits else bits).
  assert (Hmsb : Forall is_bit msb)
    by (subst msb; destruct (negb (o =s "big")); [apply Forall_rev|]; assumption).
  assert (Hmlen : List.length msb = List.length bits)
    by (subst msb; destruct (negb (o =s "big")); [apply length_rev | reflexivity]).
  pose proof (shift_in_bits_range msb Hmsb) as Hrange. rewrite Hmlen in Hrange.
  pose proof (low_bits_shift_in msb Hmsb) as Hlow. rewrite Hmlen in Hlow.
  set (k := Z.of_nat (List.length bits) / 8).
  assert (Hk : Z.of_nat (List.length bits) = 8 * k).
  { subst k. pose proof (Z.div_mod (Z.of_nat (List.length bits)) 8 ltac:(lia)).
    lia. }
  assert (Hk0 : 0 <= k) by lia.
  assert (Hpow : 2 ^ Z.of_nat (List.length bits) = 256 ^ k).
  { rewrite Hk. change 256 with (2 ^ 8). now rewrite <- Z.pow_mul_r by lia. }
  unfold from_bit_list, bit_list_to_int.
  rewrite !order_or_default_valid by assumption. rewrite !Ho. cbn [negb].
  replace (Z.of_nat (List.length bits) mod 8 =? 0) with true
    by (symmetry; now apply Z.eqb_eq).
  cbn [negb bind]. fold msb. unfold int_to_bytes. fold k.
  destruct (shift_in msb <? 0) eqn:E1; [apply Z.ltb_lt in E1; lia|].
  destruct (k <? 0) eqn:E2; [apply Z.ltb_lt in E2; lia|].
  destruct (256 ^ k <=? shift_in msb) eqn:E3; [apply Z.leb_le in E3; lia|].
  change (if o =s "big" then rev (le_digits (Z.to_nat k) (shift_in msb))
          else le_digits (Z.to_nat k) (shift_in msb))
    with (in_order o (le_digits (Z.to_nat k) (shift_in msb))).
  eexists. split; [reflexivity|].
  rewrite in_order_length, le_digits_length. split; [lia|].
  unfold to_bit_list, int_to_bit_list.
  rewrite order_or_default_valid by assumption.
  assert (Hd : order_or_default None o = o) by reflexivity.
  rewrite Hd, Ho. cbn [negb]. f_equal.
  rewrite int_from_bytes_in_order, in_order_involutive.
  rewrite in_order_length, le_digits_length.
  rewrite le_value_le_digits by (rewrite Z2Nat.id by lia; lia).
  replace (Z.to_nat (8 * Z.of_nat (Z.to_nat k))) with (List.length bits) by lia.
  rewrite Hlow. subst msb.
  destruct (o =s "big"); cbn [negb]; now rewrite ?rev_involutive.
Qed.

Lemma from_bit_list_round_trip_witness :
  exists b,
    from_bit_list "big" [1; 0; 0; 0; 0; 0; 0; 1] (Some "big") = Ok b /\
    Z.of_nat (List.length b) = 1 /\
    to_bit_list "big" b (Some "big") = Ok [1; 0; 0; 0; 0; 0; 0; 1].
Proof.
  apply (from_bit_list_round_trip "big" [1; 0; 0; 0; 0; 0; 0; 1]);
    [reflexivity | repeat constructor; (now left) || (now right) | reflexivity].
Defined.

(** ** KNX addresses *)

Lemma individual_first_byte_table :
  forallb (fun x => forallb (individual_first_byte_ok x) (range 100)) (range 100)
  = true.
Proof. vm_compute. reflexivity. Qed.

Lemma individual_first_byte (x y : Z) :
  0 <= x < 100 -> 0 <= y < 100 ->
  knx_first_byte "big" 4 x y = Ok [byte_of_Z ((x mod 16) * 16 + y mod 16)].
Proof.
  intros Hx Hy.
  pose proof individual_first_byte_table as T.
  rewrite forallb_forall in T.
  specialize (T x (in_range 100 x Hx)).
  rewrite forallb_forall in T.
  specialize (T y (in_range 100 y Hy)).
  unfold individual_first_byte_ok in T.
  destruct (knx_first_byte "big" 4 x y) as [[|b [|]]|]; try discriminate.
  apply Byte.byte_dec_bl in T. now subst.
Qed.

Lemma to_knx_parts_nonempty (b1 : byte) (rest : bytes) (group : bool) :
  to_knx_parts "big" (b1 :: rest) group
  = Ok (Some (if group then Z.shiftr (Z_of_byte b1) 3 else Z.shiftr (Z_of_byte b1) 4,
              if group then Z.land (Z_of_byte b1) 7 else Z.land (Z_of_byte b1) 15,
              int_from_bytes rest "big")).
Proof.
  assert (Hz : to_int "big" (slice_from 1 (b1 :: rest)) None
               = Ok (int_from_bytes rest "big")) by reflexivity.
  assert (Hlen : (Z.of_nat (List.length (b1 :: rest)) =? 0) = false).
  { apply Z.eqb_neq. cbn [List.length]. lia. }
  unfold to_knx_parts. rewrite Hlen, Hz.
  change (slice_to 1 (b1 :: rest)) with [b1].
  destruct group; destruct b1; reflexivity.
Qed.

(** X12.  [to_knx] never raises under the default order big.  For a value
    that is not empty it reads X and Y from the first byte, four bits each
    for an individual address and five then three bits for a group address,
    and Z is the big-endian integer of all the bytes that follow: 0 for a
    value of one byte, more than 255 for a value of three bytes or more. *)
Theorem to_knx_parts_any_length (b1 : byte) (rest : bytes) :
  to_knx_parts "big" (b1 :: rest) false
  = Ok (Some (Z.shiftr (Z_of_byte b1) 4, Z.land (Z_of_byte b1) 15,
              int_from_bytes rest "big")) /\
  to_knx_parts "big" (b1 :: rest) true
  = Ok (Some (Z.shiftr (Z_of_byte b1) 3, Z.land (Z_of_byte b1) 7,
              int_from_bytes rest "big")) /\
  (forall group, to_knx "big" [] group = Ok None).
Proof.
  split; [apply (to_knx_parts_nonempty b1 rest false)|].
  split; [apply (to_knx_parts_nonempty b1 rest true)|].
  reflexivity.
Qed.

(** [from_knx] on a string that matches the first pattern. *)
Lemma from_knx_dotted (address xs ys zs : string) :
  is_ascii address = true ->
  match_address "." address = Some (xs, ys, zs) ->
  from_knx "big" address
  = (do b2 <- from_int "big" (int_of_digits zs) 0 None;
     Ok (Some (byte_of_Z ((int_of_digits xs mod 16) * 16
                          + int_of_digits ys mod 16) :: b2))).
Proof.
  intros _ H. unfold from_knx. rewrite H.
  destruct (match_address_bounds _ _ _ _ _ H) as [Hx Hy].
  unfold knx_pack. rewrite individual_first_byte by assumption. cbn [bind app].
  destruct (from_int "big" (int_of_digits zs) 0 None); reflexivity.
Qed.

(** X13.  For an individual address in ASCII text [from_knx] packs X on
    four bits and Y on four bits into one byte, the high bits of a larger X
    or Y being lost, and the bytes of Z follow. *)
Theorem from_knx_individual (address xs ys zs : string) :
  is_ascii address = true ->
  match_address "." address = Some (xs, ys, zs) ->
  from_knx "big" address
  = (do b2 <- from_int "big" (int_of_digits zs) 0 None;
     Ok (Some (byte_of_Z ((int_of_digits xs mod 16) * 16
                          + int_of_digits ys mod 16) :: b2))).
Proof. exact (from_knx_dotted address xs ys zs). Qed.

Lemma from_knx_individual_witness :
  from_knx "big" "17.2.3" = Ok (Some [x12; x03]).
Proof.
  rewrite (from_knx_individual "17.2.3" "17" "2" "3" eq_refl eq_refl).
  reflexivity.
Defined.

Lemma str_int_table : forallb str_int_ok (range 1000) = true.
Proof. vm_compute. reflexivity. Qed.

Lemma digits3_table : forallb digits3_ok (range 1000) = true.
Proof. vm_compute. reflexivity. Qed.

Lemma int_of_str (n : Z) :
  0 <= n < 1000 ->
  int_of_digits (str_of_int n) = n /\ (str_of_int n =s EmptyString) = false.
Proof.
  intros Hn. pose proof str_int_table as T. rewrite forallb_forall in T.
  specialize (T n (in_range 1000 n Hn)). unfold str_int_ok in T.
  apply andb_true_iff in T. destruct T as [T1 T2].
  apply Z.eqb_eq in T1. apply negb_true_iff in T2. now split.
Qed.

Lemma digits3_of_str (n : Z) :
  0 <= n < 1000 -> digits 3 (str_of_int n) = (str_of_int n, EmptyString).
Proof.
  intros Hn. pose proof digits3_table as T. rewrite forallb_forall in T.
  specialize (T n (in_range 1000 n Hn)). unfold digits3_ok in T.
  destruct (digits 3 (str_of_int n)) as [d r].
  apply andb_true_iff in T. destruct T as [T1 T2].
  apply String.eqb_eq in T1, T2. now subst.
Qed.

Ltac each_of H :=
  cbn in H; repeat (destruct H as [<- | H]; [reflexivity|]); contradiction.

Lemma digits2_of_str (group : bool) (n : Z) (rest : string) :
  0 <= n < 32 ->
  digits 2 (str_of_int n ++ String (if group then "/" else ".")%char rest)
  = (str_of_int n, String (if group then "/" else ".")%char rest).
Proof.
  intros Hn. pose proof (in_range 32 n Hn) as H. destruct group; each_of H.
Qed.

Lemma slash_is_not_dot (n : Z) (rest : string) :
  0 <= n < 32 ->
  match_address "." (str_of_int n ++ String "/" rest) = None.
Proof.
  intros Hn. pose proof (in_range 32 n Hn) as H. each_of H.
Qed.

Lemma match_formatted (group : bool) (x y z : Z) :
  0 <= x < 32 -> 0 <= y < 32 -> 0 <= z < 1000 ->
  match_address (if group then "/" else ".")%char (knx_format group (x, y, z))
  = Some (str_of_int x, str_of_int y, str_of_int z).
Proof.
  intros Hx Hy Hz. unfold knx_format, match_address.
  replace (str_of_int x ++ (if group then "/" else ".")
           ++ str_of_int y ++ (if group then "/" else ".") ++ str_of_int z)%string
    with (str_of_int x ++ String (if group then "/" else ".")%char
            (str_of_int y ++ String (if group then "/" else ".")%char
               (str_of_int z)))%string
    by (destruct group; reflexivity).
  rewrite digits2_of_str by assumption.
  destruct (int_of_str x ltac:(lia)) as [_ ->].
  cbn [expect]. rewrite Ascii.eqb_refl.
  rewrite digits2_of_str by assumption.
  destruct (int_of_str y ltac:(lia)) as [_ ->].
  cbn [expect]. rewrite Ascii.eqb_refl.
  rewrite digits3_of_str by assumption.
  destruct (int_of_str z ltac:(lia)) as [_ ->].
  reflexivity.
Qed.

Lemma from_knx_formatted (group : bool) (x y z : Z) :
  0 <= x < 32 -> 0 <= y < 32 -> 0 <= z < 1000 ->
  from_knx "big" (knx_format group (x, y, z))
  = (do b <- knx_pack "big" (if group then 5 else 4) x y z; Ok (Some b)).
Proof.
  intros Hx Hy Hz.
  pose proof (match_formatted group x y z Hx Hy Hz) as Hm.
  destruct (int_of_str x ltac:(lia)) as [Ex _].
  destruct (int_of_str y ltac:(lia)) as [Ey _].
  destruct (int_of_str z ltac:(lia)) as [Ez _].
  unfold from_knx. destruct group.
  - assert (Hdot : match_address "." (knx_format true (x, y, z)) = None).
    { unfold knx_format. apply (slash_is_not_dot x); assumption. }
    rewrite Hdot, Hm, Ex, Ey, Ez. reflexivity.
  - rewrite Hm, Ex, Ey, Ez. reflexivity.
Qed.

Lemma first_byte_back (group : bool) (b1 : byte) :
  knx_first_byte "big" (if group then 5 else 4)
    (if group then Z.shiftr (Z_of_byte b1) 3 else Z.shiftr (Z_of_byte b1) 4)
    (if group then Z.land (Z_of_byte b1) 7 else Z.land (Z_of_byte b1) 15)
  = Ok [b1].
Proof. destruct group; destruct b1; reflexivity. Qed.

Lemma knx_parts_range (group : bool) (b1 : byte) :
  0 <= (if group then Z.shiftr (Z_of_byte b1) 3 else Z.shiftr (Z_of_byte b1) 4) < 32 /\
  0 <= (if group then Z.land (Z_of_byte b1) 7 else Z.land (Z_of_byte b1) 15) < 32.
Proof. destruct group; destruct b1; cbn; lia. Qed.

Lemma from_int_one_byte (b2 : byte) :
  from_int "big" (Z_of_byte b2) 0 None = Ok [b2].
Proof. destruct b2; reflexivity. Qed.

(** X14.  Every value of two bytes comes back from [to_knx] then
    [from_knx], as an individual address and as a group address. *)
Theorem knx_bytes_round_trip (group : bool) (b1 b2 : byte) :
  knx_there_and_back group b1 b2 = Ok (Some [b1; b2]).
Proof.
  unfold knx_there_and_back, to_knx.
  rewrite to_knx_parts_nonempty. cbn [bind option_map].
  destruct (knx_parts_range group b1) as [Hx Hy].
  assert (Hz : int_from_bytes [b2] "big" = Z_of_byte b2).
  { cbn. lia. }
  rewrite Hz.
  rewrite from_knx_formatted
    by (try assumption; pose proof (Z_of_byte_range b2); lia).
  unfold knx_pack. rewrite first_byte_back, from_int_one_byte. reflexivity.
Qed.






(** ** MAC addresses *)

Lemma hex2_parses (b : byte) (rest : string) :
  fromhex (hex2 b ++ rest)
  = (do tail <- fromhex rest; Ok (b :: tail)).
Proof. destruct b; reflexivity. Qed.

Lemma remove_colons_hex2 (b : byte) (rest : string) :
  remove_colons (hex2 b ++ rest) = (hex2 b ++ remove_colons rest)%string.
Proof. destruct b; reflexivity. Qed.

(** X16.  The text that [to_mac] gives for any bytes, six or not, is read
    back by [from_mac] as the same bytes. *)
Theorem mac_round_trip (array : bytes) : from_mac (to_mac array) = Ok array.
Proof.
  unfold from_mac, to_mac.
  induction array as [|b array IH]; [reflexivity|].
  destruct array as [|b' array].
  - destruct b; reflexivity.
  - change (join ":" (map hex2 (b :: b' :: array)))
      with (hex2 b ++ String ":" (join ":" (map hex2 (b' :: array))))%string.
    rewrite remove_colons_hex2.
    change (remove_colons (String ":" (join ":" (map hex2 (b' :: array)))))
      with (remove_colons (join ":" (map hex2 (b' :: array)))).
    rewrite hex2_parses, IH. reflexivity.
Qed.

End ByteCodecExtra.

(** * Further properties of the specification and of the block builder *)

Module OpcuaExtra.
Import Opcua Opcua.Samples Shapes OpcuaProofs.

(** ** Lookups in the specification *)

Lemma bytes_eqb_eq (a b : bytes) : bytes_eqb a b = true <-> a = b.
Proof.
  revert b. induction a as [|x a IH]; intros [|y b]; cbn [bytes_eqb];
    try (split; [discriminate | discriminate]); [tauto|].
  rewrite andb_true_iff, IH. split.
  - intros [H1 H2]. apply Byte.byte_dec_bl in H1. now subst.
  - intros H. injection H as -> ->. split; [apply Byte.byte_dec_lb|]; reflexivity.
Qed.

Lemma str_encode_eqb (s key : string) :
  bytes_eqb (str_encode s) (str_encode key) = (s =s key).
Proof.
  destruct (s =s key) eqn:E.
  - apply String.eqb_eq in E. subst. now apply bytes_eqb_eq.
  - apply String.eqb_neq in E.
    destruct (bytes_eqb (str_encode s) (str_encode key)) eqn:B; [|reflexivity].
    exfalso. apply E. apply bytes_eqb_eq in B. unfold str_encode in B.
    rewrite <- (string_of_list_byte_of_string s),
      <- (string_of_list_byte_of_string key).
    now rewrite B.
Qed.

Lemma first_match_ext (f g : string -> bool) (table : dict string) :
  (forall key, f key = g key) -> first_match f table = first_match g table.
Proof.
  intros H. induction table as [|[key name] rest IH]; [reflexivity|].
  cbn [first_match]. now rewrite H, IH.
Qed.

(** X17.  An identifier given as [bytes] finds in a code table what the
    same identifier given as [str] finds: [get_code_name] on the encoding of
    a string is [get_code_name] on the string. *)
Theorem get_code_name_bytes_as_str (spec : OpcuaSpec) (code_name s : string) :
  get_code_name spec code_name (PBytes (str_encode s))
  = get_code_name spec code_name (PStr s).
Proof.
  unfold get_code_name.
  destruct (_get_dict_key (codes spec) code_name) as [name|e]; [|reflexivity].
  cbn [bind]. destruct (dict_get (codes spec) name) as [table|]; [|reflexivity].
  f_equal. apply first_match_ext. intros key. apply str_encode_eqb.
Qed.

(** X18.  [get_item_template] answers with an item of the template of the
    block that has the name asked for, the first one; it answers [None] when
    the block is not in the specification and when no item of its template
    has that name. *)
Theorem get_item_template_lookup (spec : OpcuaSpec) (block_name item_name : string) :
  (forall item,
     get_item_template spec block_name item_name = Some item ->
     it_name item = item_name /\
     exists before after,
       dict_get (blocks spec) block_name = Some (before ++ item :: after) /\
       Forall (fun other => it_name other <> item_name) before) /\
  (get_item_template spec block_name item_name = None <->
   forall items,
     dict_get (blocks spec) block_name = Some items ->
     Forall (fun other => it_name other <> item_name) items).
Proof.
  unfold get_item_template.
  destruct (dict_get (blocks spec) block_name) as [items|]; cycle 1.
  { split; [discriminate|]. split; [discriminate | reflexivity]. }
  assert (Hfind : forall l item,
    find (fun i => it_name i =s item_name) l = Some item ->
    it_name item = item_name /\
    exists before after, l = before ++ item :: after /\
      Forall (fun other => it_name other <> item_name) before).
  { induction l as [|i l IH]; intros item H; [discriminate|].
    cbn [find] in H. destruct (it_name i =s item_name) eqn:E.
    - injection H as <-. apply String.eqb_eq in E. split; [exact E|].
      exists [], l. split; [reflexivity | constructor].
    - destruct (IH item H) as (Hn & before & after & -> & Hall).
      split; [exact Hn|]. exists (i :: before), after. split; [reflexivity|].
      constructor; [now apply String.eqb_neq | exact Hall]. }
  split.
  - intros item H. destruct (Hfind items item H) as (Hn & before & after & -> & Hall).
    split; [exact Hn|]. now exists before, after.
  - split.
    + intros Hnone items' Heq. injection Heq as <-.
      apply Forall_forall. intros other Hin Hname.
      apply (find_none _ _ Hnone) in Hin. apply String.eqb_neq in Hin.
      contradiction.
    + intros Hall. specialize (Hall items eq_refl).
      destruct (find (fun i => it_name i =s item_name) items) as [item|] eqn:E;
        [|reflexivity].
      apply find_some in E. destruct E as [Hin Hname].
      rewrite Forall_forall in Hall. apply String.eqb_eq in Hname.
      now apply Hall in Hin.
Qed.

Lemma get_item_template_lookup_witness :
  it_name (field_item "port" 2) = "port" /\
  exists before after,
    dict_get (blocks sample_spec) "HEL_BODY"
    = Some (before ++ field_item "port" 2 :: after) /\
    Forall (fun other => it_name other <> "port") before.
Proof.
  destruct (get_item_template_lookup sample_spec "HEL_BODY" "port") as [H _].
  apply (H (field_item "port" 2)). reflexivity.
Defined.

(** ** Dependencies *)

Lemma split_colon_no_colon (s : string) :
  has_colon s = false -> split_colon s = [s].
Proof.
  induction s as [|c s IH]; [reflexivity|].
  cbn [has_colon split_colon]. intros H. apply orb_false_iff in H.
  destruct H as [Hc Hs]. rewrite Hc, (IH Hs). reflexivity.
Qed.

Lemma split_colon_app (s more : string) :
  has_colon s = false ->
  split_colon (s ++ String ":" more) = s :: split_colon more.
Proof.
  induction s as [|c s IH]; intros H; [reflexivity|].
  cbn [has_colon] in H. apply orb_false_iff in H. destruct H as [Hc Hs].
  cbn [append split_colon]. rewrite Hc, (IH Hs). reflexivity.
Qed.

Lemma prefix_app (s t : string) : String.prefix s (s ++ t) = true.
Proof.
  induction s as [|c s IH]; cbn [append String.prefix].
  - now destruct t.
  - destruct (ascii_dec c c); [exact IH | congruence].
Qed.

(** X19.  For every type [depends:name], and [depends:name:more], where
    [name] has no colon and is a key of the defaults, the type of the block
    is what [get_code_name] finds for the default value in the table [name];
    the parent is not looked at, and what follows a second colon is ignored. *)
Theorem resolve_depends_from_defaults (spec : OpcuaSpec)
  (defaults : dict pyvalue) (parent : parents) (name more : string)
  (identifier : pyvalue) :
  has_colon name = false ->
  dict_get defaults name = Some identifier ->
  resolve_block_type spec defaults parent ("depends:" ++ name)
  = get_code_name spec name identifier /\
  resolve_block_type spec defaults parent ("depends:" ++ name ++ String ":" more)
  = get_code_name spec name identifier.
Proof.
  intros Hc Hd. unfold resolve_block_type.
  rewrite !prefix_app.
  change ("depends:" ++ name)%string with ("depends" ++ String ":" name)%string.
  change ("depends:" ++ name ++ String ":" more)%string
    with ("depends" ++ String ":" (name ++ String ":" more))%string.
  rewrite !split_colon_app by reflexivity.
  rewrite split_colon_no_colon, split_colon_app by assumption.
  cbn [nth]. rewrite Hd. split; reflexivity.
Qed.

Lemma resolve_depends_from_defaults_witness :
  resolve_block_type sample_spec [("message_type", PBytes [x41; x43; x4b])] []
    "depends:message_type:ignored"
  = Ok (Some "PAIR").
Proof.
  destruct (resolve_depends_from_defaults sample_spec
              [("message_type", PBytes [x41; x43; x4b])] []
              "message_type" "ignored" (PBytes [x41; x43; x4b])
              eq_refl eq_refl) as [_ H].
  etransitivity; [exact H | reflexivity].
Defined.

(** ** What a built block looks like *)

Lemma factory_built_from make_block template kw child :
  factory make_block template kw = Ok child -> built_from template child.
Proof.
  unfold factory.
  destruct (it_type template) as [t|] eqn:Ht.
  - destruct (t =s "field") eqn:Ef.
    + apply String.eqb_eq in Ef. subst t.
      destruct (match kw_defaults kw with
                | Some defaults => dict_mem defaults (it_name template)
                | None => false
                end); [discriminate|].
      destruct (kw_value kw) as [[|x value]|]; cbn [bind].
      * intros H. injection H as <-. now split.
      * destruct (it_size template); cbn [bind]; [|discriminate].
        intros H. injection H as <-. now split.
      * intros H. injection H as <-. now split.
    + destruct (make_block _) as [b|e]; cbn [bind]; [|discriminate].
      intros H. injection H as <-. cbn [as_item built_from].
      intros Heq. rewrite Ht in Heq. injection Heq as ->. discriminate Ef.
  - destruct (make_block _) as [b|e]; cbn [bind]; [|discriminate].
    intros H. injection H as <-. cbn [as_item built_from].
    rewrite Ht. discriminate.
Qed.

Lemma build_items_follow make_block block_template :
  forall defaults value parent content content',
    build_items make_block block_template defaults value parent content
    = Ok content' ->
    exists k new,
      content' = content ++ new /\
      (k <= List.length block_template)%nat /\
      (block_template <> [] -> (1 <= k)%nat) /\
      Forall2 built_from (firstn k block_template) new.
Proof.
  induction block_template as [|template rest IH];
    intros defaults value parent content content' H; cbn [build_items] in H.
  - injection H as <-. exists O, []. rewrite app_nil_r.
    repeat split; [lia | congruence | constructor].
  - destruct (factory make_block template
                (loop_kwargs defaults value content parent))
      as [new_item|e] eqn:Hnew; cbn [bind] in H; [|discriminate].
    apply factory_built_from in Hnew.
    assert (Hstop : exists k new,
      content ++ [new_item] = content ++ new /\
      (k <= List.length (template :: rest))%nat /\
      (template :: rest <> [] -> (1 <= k)%nat) /\
      Forall2 built_from (firstn k (template :: rest)) new).
    { exists 1%nat, [new_item]. cbn [List.length firstn].
      repeat split; [lia | lia | repeat constructor; exact Hnew]. }
    assert (Hgo : forall value',
      build_items make_block rest defaults value' parent (content ++ [new_item])
      = Ok content' ->
      exists k new,
        content' = content ++ new /\
        (k <= List.length (template :: rest))%nat /\
        (template :: rest <> [] -> (1 <= k)%nat) /\
        Forall2 built_from (firstn k (template :: rest)) new).
    { intros value' H'.
      destruct (IH _ _ _ _ _ H') as (k & new & -> & Hk & _ & Hall).
      exists (S k), (new_item :: new). cbn [List.length firstn].
      rewrite <- app_assoc. repeat split; [lia | lia |].
      constructor; assumption. }
    destruct value as [|x value]; [now apply Hgo in H|].
    destruct (List.length (x :: value) <=? item_len new_item)%nat.
    + injection H as <-. exact Hstop.
    + now apply Hgo in H.
Qed.

(** X20.  A block built with a type has the resolved type as name, a type
    that the specification has with a template that is not empty; its
    children are the ones built for the first items of that template, one
    per item and in the order of the template, the first item at least. *)
Theorem built_children_follow_template (spec : OpcuaSpec) (depth : nat)
  (kw : kwargs) (block_type : string) (b : OpcuaBlock) :
  given_block_type kw = Some block_type ->
  OpcuaBlock_init spec depth kw = Ok b ->
  exists block_template k,
    get_block_template spec (Some (b_name b)) = Some block_template /\
    (1 <= k <= List.length block_template)%nat /\
    Forall2 built_from (firstn k block_template) (b_content b).
Proof.
  intros Hty H. rewrite OpcuaBlock_init_unfold in H. unfold init_body in H.
  rewrite Hty in H.
  destruct (resolve_block_type spec (defaults_of kw) (kw_parent kw) block_type)
    as [resolved|e]; cbn [bind] in H; [|discriminate].
  unfold build_block in H.
  destruct resolved as [name|]; [|discriminate].
  destruct (get_block_template spec (Some name)) as [[|t r]|] eqn:Htpl;
    try discriminate.
  destruct (build_items _ (t :: r) _ _ _ _) as [content|e] eqn:Hb;
    cbn [bind] in H; [|discriminate].
  injection H as <-. cbn [b_name b_content].
  destruct (build_items_follow _ _ _ _ _ _ _ Hb) as (k & new & -> & Hk & H1 & Hall).
  exists (t :: r), k. split; [exact Htpl|].
  split; [split; [apply H1; discriminate | exact Hk] | exact Hall].
Qed.

Lemma built_children_follow_template_witness :
  exists block_template k,
    get_block_template sample_spec (Some "PAIR") = Some block_template /\
    (1 <= k <= List.length block_template)%nat /\
    Forall2 built_from (firstn k block_template)
      [Field {| f_name := "first"; f_size := 1; f_value := [x01] |}].
Proof.
  apply (built_children_follow_template sample_spec 1
           (parse_kwargs "PAIR" [x01]) "PAIR"
           {| b_name := "PAIR";
              b_content :=
                [Field {| f_name := "first"; f_size := 1; f_value := [x01] |}] |});
    reflexivity.
Defined.

(** ** Bytes of a built block *)

Lemma firstn_min_length {A : Type} (n : nat) (l : list A) :
  firstn (List.length (firstn n l)) l = firstn n l.
Proof.
  rewrite length_firstn.
  destruct (Nat.le_ge_cases n (List.length l)) as [H|H].
  - now rewrite Nat.min_l.
  - rewrite Nat.min_r by assumption. now rewrite !firstn_all2 by lia.
Qed.

Section Prefix.

Variable make_block : kwargs -> result OpcuaBlock.

(** What the loop needs of the constructor of nested blocks. *)
Hypothesis make_block_prefix :
  forall kw b,
    make_block kw = Ok b ->
    block_bytes b = firstn (List.length (block_bytes b)) (value_of kw).

Lemma factory_prefix template defaults value content parent child :
  factory make_block template (loop_kwargs defaults value content parent)
  = Ok child ->
  item_bytes child = firstn (item_len child) value.
Proof.
  rewrite item_len_bytes. unfold factory.
  destruct (match it_type template with
            | Some t => t =s "field"
            | None => false
            end).
  - cbn [loop_kwargs kw_defaults kw_value].
    destruct (dict_mem defaults (it_name template)); [discriminate|].
    destruct value as [|x value]; cbn [bind].
    + intros H. injection H as <-. unfold new_field. cbn [item_bytes f_value].
      destruct (_ =? 0)%nat; now rewrite ?firstn_nil.
    + destruct (it_size template) as [size|] eqn:Hs; cbn [bind]; [|discriminate].
      intros H. injection H as <-. unfold new_field. rewrite Hs.
      cbn [item_bytes f_value].
      destruct (size =? 0)%nat.
      * now rewrite firstn_min_length.
      * rewrite firstn_firstn, Nat.min_id. now rewrite firstn_min_length.
  - destruct (make_block _) as [b|e] eqn:Hb; cbn [bind]; [|discriminate].
    intros H. injection H as <-.
    apply make_block_prefix in Hb. exact Hb.
Qed.

Lemma build_items_prefix block_template :
  forall defaults value parent content content',
    build_items make_block block_template defaults value parent content
    = Ok content' ->
    exists m,
      flat_map item_bytes content'
      = flat_map item_bytes content ++ firstn m value.
Proof.
  induction block_template as [|template rest IH];
    intros defaults value parent content content' H; cbn [build_items] in H.
  - injection H as <-. exists O. cbn [firstn]. now rewrite app_nil_r.
  - destruct (factory make_block template
                (loop_kwargs defaults value content parent))
      as [new_item|e] eqn:Hnew; cbn [bind] in H; [|discriminate].
    apply factory_prefix in Hnew.
    destruct value as [|x value].
    + destruct (IH _ _ _ _ _ H) as (m & Hm). exists O.
      rewrite Hm, flat_map_app. cbn [flat_map].
      rewrite Hnew, !firstn_nil, !app_nil_r. reflexivity.
    + destruct (List.length (x :: value) <=? item_len new_item)%nat.
      * injection H as <-. exists (item_len new_item).
        rewrite flat_map_app. cbn [flat_map]. now rewrite Hnew, app_nil_r.
      * destruct (IH _ _ _ _ _ H) as (m & Hm).
        exists (item_len new_item + m)%nat.
        rewrite Hm, flat_map_app. cbn [flat_map].
        rewrite app_nil_r, firstn_add_skipn, app_assoc, <- Hnew. reflexivity.
Qed.

Lemma init_body_prefix spec kw b :
  init_body spec make_block kw = Ok b ->
  block_bytes b = firstn (List.length (block_bytes b)) (value_of kw).
Proof.
  unfold init_body.
  destruct (given_block_type kw) as [block_type|].
  - destruct (resolve_block_type _ _ _ _) as [resolved|e]; cbn [bind];
      [|discriminate].
    unfold build_block. destruct resolved as [name|]; [|discriminate].
    destruct (get_block_template spec (Some name)) as [[|t r]|];
      try discriminate.
    destruct (build_items _ (t :: r) _ _ _ _) as [content|e] eqn:Hb;
      cbn [bind]; [|discriminate].
    intros H. injection H as <-.
    destruct (build_items_prefix _ _ _ _ _ _ Hb) as (m & Hm).
    unfold block_bytes. cbn [as_item item_bytes b_name b_content].
    rewrite Hm. cbn [flat_map app]. now rewrite firstn_min_length.
  - intros H. injection H as <-. reflexivity.
Qed.

End Prefix.

(** X21.  Whatever the specification, the template, the defaults and the
    parent, the bytes of a block that is built are the first bytes of the
    value it is built from, as many as the length of the block, in the same
    order: the block is never longer than the value. *)
Theorem built_block_is_prefix (spec : OpcuaSpec) (depth : nat) (kw : kwargs)
  (b : OpcuaBlock) :
  OpcuaBlock_init spec depth kw = Ok b ->
  block_bytes b = firstn (item_len (as_item b)) (value_of kw) /\
  (item_len (as_item b) <= List.length (value_of kw))%nat.
Proof.
  assert (H : forall d kw' b',
    OpcuaBlock_init spec d kw' = Ok b' ->
    block_bytes b' = firstn (List.length (block_bytes b')) (value_of kw')).
  { induction d as [|d IH]; intros kw' b' Hb; rewrite OpcuaBlock_init_unfold in Hb.
    - apply (init_body_prefix (fun _ => Raise RecursionError)) in Hb;
        [exact Hb | discriminate].
    - apply (init_body_prefix (OpcuaBlock_init spec d)) in Hb;
        [exact Hb | exact IH]. }
  intros Hb. specialize (H depth kw b Hb).
  rewrite item_len_bytes. fold (block_bytes b). split; [exact H|].
  rewrite H at 1. rewrite length_firstn. lia.
Qed.

Lemma built_block_is_prefix_witness :
  block_bytes
    {| b_name := "PAIR";
       b_content :=
         [Field {| f_name := "first"; f_size := 1; f_value := [x01] |};
          Field {| f_name := "second"; f_size := 1; f_value := [x02] |}] |}
  = firstn 2 [x01; x02; x03].
Proof.
  apply (built_block_is_prefix sample_spec 1 (parse_kwargs "PAIR" [x01; x02; x03])
           {| b_name := "PAIR";
              b_content :=
                [Field {| f_name := "first"; f_size := 1; f_value := [x01] |};
                 Field {| f_name := "second"; f_size := 1; f_value := [x02] |}] |}).
  reflexivity.
Defined.

(** ** Errors of the constructor *)

Lemma build_items_defaults_raise make_block block_template :
  forall defaults parent content,
    Forall (fun t => it_type t = Some "field") block_template ->
    Exists (fun t => dict_mem defaults (it_name t) = true) block_template ->
    build_items make_block block_template defaults [] parent content
    = Raise (NameError "template").
Proof.
  induction block_template as [|t rest IH];
    intros defaults parent content Hall Hex; [inversion Hex|].
  inversion Hall as [|? ? Ht Hrest]; subst.
  cbn [build_items]. unfold factory. rewrite Ht.
  cbn [String.eqb Ascii.eqb Bool.eqb loop_kwargs kw_defaults kw_value].
  destruct (dict_mem defaults (it_name t)) eqn:Hm; [reflexivity|].
  cbn [bind]. apply IH; [assumption|].
  inversion Hex as [? ? Hhere | ? ? Hlater]; subst; [congruence | assumption].
Qed.

(** X22.  A block whose template is made of fields cannot be built from
    defaults that name one of these fields: the constructor raises
    [NameError], whatever the value of the default is. *)
Theorem defaults_for_a_field_raise (spec : OpcuaSpec) (depth : nat)
  (kw : kwargs) (block_type : string) (block_template : list item_template) :
  given_block_type kw = Some block_type ->
  String.prefix "depends:" block_type = false ->
  get_block_template spec (Some block_type) = Some block_template ->
  Forall (fun t => it_type t = Some "field") block_template ->
  Exists (fun t => dict_mem (defaults_of kw) (it_name t) = true) block_template ->
  value_of kw = [] ->
  OpcuaBlock_init spec depth kw = Raise (NameError "template").
Proof.
  intros Hty Hp Htpl Hall Hex Hv.
  rewrite OpcuaBlock_init_unfold. unfold init_body.
  rewrite Hty. unfold resolve_block_type. rewrite Hp. cbn [bind].
  unfold build_block. rewrite Htpl, Hv.
  destruct block_template as [|t r]; [inversion Hex|].
  now rewrite build_items_defaults_raise.
Qed.

Lemma defaults_for_a_field_raise_witness :
  OpcuaBlock_init sample_spec 1
    (defaults_kwargs "HEL_BODY" [("port", PBytes [x12; x68])])
  = Raise (NameError "template").
Proof.
  apply (defaults_for_a_field_raise sample_spec 1
           (defaults_kwargs "HEL_BODY" [("port", PBytes [x12; x68])])
           "HEL_BODY" [field_item "protocol_version" 4; field_item "port" 2]);
    try reflexivity.
  - repeat constructor.
  - apply Exists_cons_tl, Exists_cons_hd. reflexivity.
Defined.

(** X23.  With a type that is no dependency and that the specification
    does not have, or has with an empty template, the constructor raises
    [BOFProgrammingError]: no block is built, whatever the other keyword
    arguments are. *)
Theorem unknown_block_type_raises (spec : OpcuaSpec) (depth : nat)
  (kw : kwargs) (block_type : string) :
  given_block_type kw = Some block_type ->
  String.prefix "depends:" block_type = false ->
  get_block_template spec (Some block_type) = None \/
  get_block_template spec (Some block_type) = Some [] ->
  exists msg, OpcuaBlock_init spec depth kw = Raise (BOFProgrammingError msg).
Proof.
  intros Hty Hp Htpl.
  rewrite OpcuaBlock_init_unfold. unfold init_body.
  rewrite Hty. unfold resolve_block_type. rewrite Hp. cbn [bind].
  unfold build_block. destruct Htpl as [-> | ->]; eexists; reflexivity.
Qed.

Lemma unknown_block_type_raises_witness :
  exists msg,
    OpcuaBlock_init sample_spec 1 (parse_kwargs "BODY" [x01])
    = Raise (BOFProgrammingError msg).
Proof.
  apply (unknown_block_type_raises sample_spec 1 (parse_kwargs "BODY" [x01])
           "BODY"); [reflexivity | reflexivity | now left].
Defined.

End OpcuaExtra.
